(** * Serverless analytics: the analytics service and its API handlers

    A shallow embedding of [src/services/analytics_service.py] and of the
    routes of [src/handlers/api_handler.py] that call it.

    Python dictionaries are finite maps from strings ([gmap string _]);
    a raised [Exception] is its message ([str(e)]); the managed backends
    (DynamoDB tables, S3, Athena, the clock) are a record of responses, and
    every request the code sends to them is recorded in a trace. *)

From Stdlib Require Import ZArith.
From stdpp Require Import base strings gmap list pretty.

(** ** Python values and exceptions *)
Module Py.

(** The JSON scalars an event carries. *)
Inductive value :=
| VStr (s : string)
| VInt (z : Z)
| VBool (b : bool)
| VNull.

#[global] Instance value_eq_dec : EqDecision value.
Proof. solve_decision. Defined.

(** An event, an item of a table, a request body: [Dict[str, Any]]. *)
Abbreviation dict := (gmap string value).

(** [str(v)], which is what an f-string field [{v}] renders. *)
Definition py_str (v : value) : string :=
  match v with
  | VStr s => s
  | VInt z => pretty z
  | VBool true => "True"
  | VBool false => "False"
  | VNull => "None"
  end.

(** The format field [{n:02d}]. *)
Definition format_02d (n : Z) : string :=
  if decide (0 ≤ n < 10)%Z then "0" +:+ pretty n else pretty n.

(** [Exception(msg)]: the service and the handlers only ever read [str(e)]. *)
Definition exn := string.

(** [str(KeyError(k))] is the [repr] of the key. *)
Definition KeyError (k : string) : exn := "'" +:+ k +:+ "'".

Definition IndexError : exn := "list index out of range".

(** [range(start, stop, step)] for a positive step; [stop] bounds the number
    of elements. *)
Fixpoint range_from (fuel start stop step : nat) : list nat :=
  match fuel with
  | O => []
  | S fuel' =>
      if decide (start < stop)
      then start :: range_from fuel' (start + step) stop step
      else []
  end.

Definition range3 (start stop step : nat) : list nat :=
  range_from stop start stop step.

(** [l[i:j]] *)
Definition slice {A} (l : list A) (i j : nat) : list A :=
  take (j - i) (drop i l).

End Py.
Export Py.

(** ** The world outside the process *)

(** A reading of [datetime.now()]: its [isoformat()] and
    [int(timestamp())]. *)
Record datetime := { isoformat : string; unix_seconds : Z }.

(** The fields of a parsed timestamp the archive key uses. *)
Record date := { year : Z; month : Z; day : Z }.

(** One cell of an Athena row, [{'VarCharValue': s}] or [{}]. *)
Abbreviation cell := (option string).
(** One row of a result set, its ['Data']. *)
Abbreviation row := (list cell).
(** One parsed row: column name to value. *)
Abbreviation parsed_row := (gmap string string).

(** The status part of [get_query_execution]'s response. *)
Record query_status := { State : string; StateChangeReason : option string }.

(** Requests sent to the backends, and the pauses between them. *)
Inductive call :=
| PutItem (item : dict)
| GetItem (event_id : string)
| QueryAggregations (metric start_date end_date : string)
| S3PutObject (bucket key body : string)
| StartQueryExecution (sql : value)
| GetQueryExecution (query_execution_id : string)
| GetQueryResults (query_execution_id : string) (max_results : nat)
| BatchWriterEnter
| BatchWriterPutItem (item : dict)
| BatchWriterExit
| Sleep (seconds : nat).

#[global] Instance call_eq_dec : EqDecision call.
Proof. solve_decision. Defined.

(** What the backends answer. A response is [inl e] when the client call
    raises. *)
Record backend := {
  (** the n-th reading of the clock *)
  datetime_now : nat → datetime;
  (** [datetime.fromisoformat] *)
  fromisoformat : value → exn + date;
  (** [json.dumps(_, cls=DecimalEncoder)] *)
  json_dumps : dict → exn + string;
  (** [events_table.put_item] *)
  put_item : dict → exn + unit;
  (** [events_table.get_item]; the result is [response.get('Item')] *)
  get_item : string → exn + option dict;
  (** [aggregations_table.query]; the result is the ['Items'] entry *)
  query_aggregations : string → string → string → exn + option (list dict);
  (** [s3.put_object] *)
  put_object : string → string → string → exn + unit;
  (** [athena.start_query_execution], giving the ['QueryExecutionId'] *)
  start_query_execution : value → exn + string;
  (** [athena.get_query_execution] at the given attempt *)
  get_query_execution : string → nat → exn + query_status;
  (** [athena.get_query_results], giving the ['Rows'] *)
  get_query_results : string → nat → exn + list row;
  (** [writer.put_item] for the event at the given position of the input
      list *)
  batch_put_item : nat → dict → exn + unit;
  (** leaving the [with] block of the batch that starts at the given
      offset; the flag tells whether the block raised *)
  batch_exit : nat → bool → exn + unit;
}.

(** What a request has done so far. *)
Record world := World {
  clock : nat;             (** readings of the clock taken *)
  stdout : list string;    (** lines printed *)
  calls : list call;       (** requests sent, oldest first *)
}.

Definition initial_world : world := World 0 [] [].

(** ** Computations that read the clock, print, call backends and raise *)
Module Eff.

(** [L] is the type of the local variables a function mutates; they keep
    what was written to them when an exception unwinds. *)
Definition M (L A : Type) : Type := world * L → (exn + A) * (world * L).

Section ops.
Context {L : Type}.

Definition ret {A} (a : A) : M L A := λ s, (inr a, s).

Definition bind {A B} (m : M L A) (k : A → M L B) : M L B :=
  λ s, match m s with
       | (inl e, s') => (inl e, s')
       | (inr a, s') => k a s'
       end.

Definition raise {A} (e : exn) : M L A := λ s, (inl e, s).

(** [try: body except Exception as e: handler e] *)
Definition try_except {A} (body : M L A) (handler : exn → M L A) : M L A :=
  λ s, match body s with
       | (inl e, s') => handler e s'
       | (inr a, s') => (inr a, s')
       end.

(** The outcome of a block, caught. *)
Definition attempt {A} (body : M L A) : M L (exn + A) :=
  λ s, let '(r, s') := body s in (inr r, s').

Definition of_result {A} (r : exn + A) : M L A := λ s, (r, s).

Definition get_locals : M L L := λ s, (inr s.2, s).

Definition modify_locals (f : L → L) : M L unit :=
  λ s, (inr (), (s.1, f s.2)).

Definition modify_world (f : world → world) : M L unit :=
  λ s, (inr (), (f s.1, s.2)).

Definition get_world : M L world := λ s, (inr s.1, s).

(** Record a request. *)
Definition send (c : call) : M L unit :=
  modify_world (λ w, World (clock w) (stdout w) (calls w ++ [c])).

Definition print (line : string) : M L unit :=
  modify_world (λ w, World (clock w) (stdout w ++ [line]) (calls w)).

(** [d[k]] *)
Definition getitem {V} (d : gmap string V) (k : string) : M L V :=
  match d !! k with
  | Some v => ret v
  | None => raise (KeyError k)
  end.

(** [for x in l: body x] *)
Fixpoint for_each {A} (l : list A) (body : A → M L unit) : M L unit :=
  match l with
  | [] => ret ()
  | x :: rest => bind (body x) (λ _, for_each rest body)
  end.

End ops.

(** Run a function body with its own fresh local variables; the caller's
    are untouched. *)
Definition with_locals {L L' A} (init : L') (m : M L' A) : M L A :=
  λ s, let '(r, s') := m (s.1, init) in (r, (s'.1, s.2)).

#[global] Instance M_ret {L} : MRet (M L) := λ A, ret.
#[global] Instance M_bind {L} : MBind (M L) := λ A B k m, bind m k.

End Eff.
Export Eff.

(** ** [services/analytics_service.py] *)
Module AnalyticsService.

Definition bucket_name : string := "serverless-analytics-data-lake".

(** The value [store_event] returns. *)
Record store_result := { status : string; event_id : value }.

(** The value [execute_athena_query] returns. *)
Record query_result := {
  query_execution_id : string;
  query_status_text : string;
  results : list parsed_row;
}.

(** The value [store_events_batch] returns. *)
Record batch_result := {
  successful : list value;
  failed : list (dict * exn);
}.

(** The local variables of [store_events_batch]. The events are objects the
    loop mutates in place; [failed] refers to them by their position in
    [events]. *)
Record batch_locals := {
  l_events : list dict;
  l_successful : list value;
  l_failed : list (nat * exn);
}.

Section service.
Variable env : backend.

(** [datetime.now()] *)
Definition now {L} : M L datetime :=
  w ← get_world;
  modify_world (λ w, World (S (clock w)) (stdout w) (calls w));;
  mret (datetime_now env (clock w)).

(** The [try] block of [_store_event_to_s3]. *)
Definition _store_event_to_s3_try {L} (event_data : dict) : M L unit :=
  ts ← getitem event_data "timestamp";
  timestamp ← of_result (fromisoformat env ts);
  eid ← getitem event_data "event_id";
  let key := "events/year=" +:+ pretty (year timestamp)
             +:+ "/month=" +:+ format_02d (month timestamp)
             +:+ "/day=" +:+ format_02d (day timestamp)
             +:+ "/" +:+ py_str eid +:+ ".json" in
  body ← of_result (json_dumps env event_data);
  send (S3PutObject bucket_name key body);;
  of_result (put_object env bucket_name key body).

Definition _store_event_to_s3 {L} (event_data : dict) : M L unit :=
  try_except
    (_store_event_to_s3_try event_data)
    (λ e, print ("Warning: Failed to store event to S3: " +:+ e)).

Definition store_event {L} (event_data : dict) : M L store_result :=
  try_except
    (send (PutItem event_data);;
     of_result (put_item env event_data);;
     _store_event_to_s3 event_data;;
     eid ← getitem event_data "event_id";
     mret {| status := "success"; event_id := eid |})
    (λ e, raise ("Failed to store event: " +:+ e)).

Definition get_event {L} (event_id : string) : M L (option dict) :=
  try_except
    (send (GetItem event_id);;
     of_result (get_item env event_id))
    (λ e, raise ("Failed to get event: " +:+ e)).

Definition _group_by_hour (items : list dict) : list dict := items.
Definition _group_by_week (items : list dict) : list dict := items.
Definition _group_by_month (items : list dict) : list dict := items.

Definition get_analytics {L} (metric start_date end_date group_by : string)
    : M L (list dict) :=
  try_except
    (send (QueryAggregations metric start_date end_date);;
     response ← of_result (query_aggregations env metric start_date end_date);
     let items := default [] response in
     if decide (group_by = "hour") then mret (_group_by_hour items)
     else if decide (group_by = "day") then mret items
     else if decide (group_by = "week") then mret (_group_by_week items)
     else if decide (group_by = "month") then mret (_group_by_month items)
     else mret items)
    (λ e, raise ("Failed to get analytics: " +:+ e)).

(** The inner loop of [_parse_athena_results]:
    [for i, col in enumerate(row['Data']): row_data[columns[i]] = ...] *)
Fixpoint parse_cells (columns : list string) (i : nat) (cells : row)
    (row_data : parsed_row) : exn + parsed_row :=
  match cells with
  | [] => inr row_data
  | col :: rest =>
      match columns !! i with
      | None => inl IndexError
      | Some c => parse_cells columns (S i) rest (<[c := default "" col]> row_data)
      end
  end.

(** The outer loop: [for row in rows[1:]: ... data.append(row_data)] *)
Fixpoint parse_rows (columns : list string) (rows : list row)
    (data : list parsed_row) : exn + list parsed_row :=
  match rows with
  | [] => inr data
  | r :: rest =>
      match parse_cells columns 0 r ∅ with
      | inl e => inl e
      | inr row_data => parse_rows columns rest (data ++ [row_data])
      end
  end.

(** [[col['VarCharValue'] for col in header]] *)
Fixpoint header_columns (header : row) : exn + list string :=
  match header with
  | [] => inr []
  | col :: rest =>
      match col with
      | None => inl (KeyError "VarCharValue")
      | Some name =>
          match header_columns rest with
          | inl e => inl e
          | inr names => inr (name :: names)
          end
      end
  end.

Definition _parse_athena_results (rows : list row) : exn + list parsed_row :=
  match rows with
  | [] => inr []
  | header :: data_rows =>
      match header_columns header with
      | inl e => inl e
      | inr columns => parse_rows columns data_rows []
      end
  end.

Definition max_attempts : nat := 30.

(** The body of [for attempt in range(max_attempts)], followed by the
    statement after the loop. *)
Fixpoint poll {L} (qid : string) (attempts : list nat) : M L query_result :=
  match attempts with
  | [] => raise "Query timeout"
  | attempt :: rest =>
      send (GetQueryExecution qid);;
      status_response ← of_result (get_query_execution env qid attempt);
      let status := State status_response in
      if decide (status = "SUCCEEDED") then
        send (GetQueryResults qid 1000);;
        rows ← of_result (get_query_results env qid 1000);
        results ← of_result (_parse_athena_results rows);
        mret {| query_execution_id := qid;
                query_status_text := "success";
                results := results |}
      else if decide (status ∈ ["FAILED"; "CANCELLED"]) then
        let error_message :=
          default "Unknown error" (StateChangeReason status_response) in
        raise ("Query failed: " +:+ error_message)
      else
        send (Sleep 1);;
        poll qid rest
  end.

Definition execute_athena_query {L} (sql : value) : M L query_result :=
  try_except
    (send (StartQueryExecution sql);;
     qid ← of_result (start_query_execution env sql);
     poll qid (seq 0 max_attempts))
    (λ e, raise ("Failed to execute Athena query: " +:+ e)).

Definition batch_size : nat := 25.

(** [event] in the loops below is the object at position [p] of
    [events]. *)
Definition read_event (p : nat) : M batch_locals dict :=
  l ← get_locals;
  mret (l_events l !!! p).

(** [event[k] = v] *)
Definition write_event (p : nat) (k : string) (v : value)
    : M batch_locals unit :=
  modify_locals (λ l, {| l_events := alter <[k := v]> p (l_events l);
                         l_successful := l_successful l;
                         l_failed := l_failed l |}).

Definition append_successful (eid : value) : M batch_locals unit :=
  modify_locals (λ l, {| l_events := l_events l;
                         l_successful := l_successful l ++ [eid];
                         l_failed := l_failed l |}).

Definition append_failed (p : nat) (error : exn) : M batch_locals unit :=
  modify_locals (λ l, {| l_events := l_events l;
                         l_successful := l_successful l;
                         l_failed := l_failed l ++ [(p, error)] |}).

(** The body of [for event in batch] inside the [with] block. *)
Definition store_batch_event (p : nat) : M batch_locals unit :=
  d ← now;
  event ← read_event p;
  write_event p "timestamp"
    (default (VStr (isoformat d)) (event !! "timestamp"));;
  event ← read_event p;
  user_id ← getitem event "user_id";
  d ← now;
  write_event p "event_id"
    (default (VStr (py_str user_id +:+ "_" +:+ pretty (unix_seconds d)))
             (event !! "event_id"));;
  event ← read_event p;
  send (BatchWriterPutItem event);;
  of_result (batch_put_item env p event);;
  eid ← getitem event "event_id";
  append_successful eid;;
  _store_event_to_s3 event.

(** [with self.events_table.batch_writer() as writer: body]: the writer
    is left whether or not the body raised, and an exception of the exit
    replaces the body's. *)
Definition with_batch_writer (i : nat) (body : M batch_locals unit)
    : M batch_locals unit :=
  send BatchWriterEnter;;
  r ← attempt body;
  send BatchWriterExit;;
  match r with
  | inr _ => of_result (batch_exit env i false)
  | inl e => of_result (batch_exit env i true);; raise e
  end.

(** The [try] block of [store_events_batch]. *)
Definition store_chunk_try (i : nat) (batch : list nat)
    : M batch_locals unit :=
  with_batch_writer i (for_each batch store_batch_event).

(** The body of [for i in range(0, len(events), batch_size)]. [batch]
    holds the objects at positions [i .. i + batch_size) of [events]. *)
Definition store_chunk (i : nat) : M batch_locals unit :=
  l ← get_locals;
  let batch := slice (seq 0 (length (l_events l))) i (i + batch_size) in
  try_except
    (store_chunk_try i batch)
    (λ e, for_each batch (λ p, append_failed p e)).

Definition store_events_batch {L} (events : list dict) : M L batch_result :=
  with_locals
    {| l_events := events; l_successful := []; l_failed := [] |}
    (for_each (range3 0 (length events) batch_size) store_chunk;;
     l ← get_locals;
     mret {| successful := l_successful l;
             failed := (λ pe, (l_events l !!! pe.1, pe.2)) <$> l_failed l |}).

End service.
End AnalyticsService.

(** ** [handlers/api_handler.py] *)
Module ApiHandler.

(** The JSON bodies the routes below answer with. *)
Inductive json :=
| Error (error : exn)
    (** [{"error": error}] *)
| EventCreated (event_id : value)
    (** [{"status": "success", "event_id": event_id,
         "message": "Event created successfully"}] *)
| Event (event : dict)
| QueryResults (query_execution_id : string) (results : list parsed_row)
    (** [{"status": "success", "query_execution_id": .., "results": ..}] *)
| BatchResults (processed failed : nat) (results : AnalyticsService.batch_result)
    (** [{"status": "success", "processed": .., "failed": .., "results": ..}] *).

(** A returned pair [body, status]; a handler that returns only a body
    answers 200. *)
Record response := Response { status_code : nat; body : json }.

Section handlers.
Variable env : backend.

Definition required_fields : list string := ["user_id"; "event_type"].

(** [for field in fields: if field not in event_data: return ..] gives
    the field it returned at, if any. *)
Fixpoint first_missing (fields : list string) (event_data : dict)
    : option string :=
  match fields with
  | [] => None
  | field :: rest =>
      if decide (event_data !! field = None) then Some field
      else first_missing rest event_data
  end.

(** [POST /events]; [event_data] is the request's JSON body. *)
Definition create_event (event_data : dict) : M unit response :=
  try_except
    (match first_missing required_fields event_data with
     | Some field =>
         mret (Response 400 (Error ("Missing required field: " +:+ field)))
     | None =>
         d ← AnalyticsService.now env;
         let event_data := <["timestamp" := VStr (isoformat d)]> event_data in
         user_id ← getitem event_data "user_id";
         d ← AnalyticsService.now env;
         let event_data :=
           <["event_id" := VStr (py_str user_id +:+ "_"
                                 +:+ pretty (unix_seconds d))]> event_data in
         result ← AnalyticsService.store_event env event_data;
         eid ← getitem event_data "event_id";
         mret (Response 200 (EventCreated eid))
     end)
    (λ e, mret (Response 500 (Error e))).

(** [GET /events/<event_id>] *)
Definition get_event (event_id : string) : M unit response :=
  try_except
    (event ← AnalyticsService.get_event env event_id;
     match event with
     | None => mret (Response 404 (Error "Event not found"))
     | Some item =>
         if decide (item = ∅)
         then mret (Response 404 (Error "Event not found"))
         else mret (Response 200 (Event item))
     end)
    (λ e, mret (Response 500 (Error e))).

(** [POST /query]; [query_data] is the request's JSON body. *)
Definition execute_query (query_data : dict) : M unit response :=
  try_except
    (match query_data !! "sql" with
     | None => mret (Response 400 (Error "Missing required field: sql"))
     | Some sql =>
         result ← AnalyticsService.execute_athena_query env sql;
         mret (Response 200
                 (QueryResults (AnalyticsService.query_execution_id result)
                               (AnalyticsService.results result)))
     end)
    (λ e, mret (Response 500 (Error e))).


End handlers.
End ApiHandler.

(** ** Backends to run the code against *)
Module Scenarios.

(** Every backend answers; a query stays RUNNING. *)
Definition healthy : backend := {|
  datetime_now n :=
    {| isoformat := "2024-01-15T10:30:00";
       unix_seconds := 1705314600 + Z.of_nat n |};
  fromisoformat v :=
    match v with
    | VStr _ => inr {| year := 2024; month := 1; day := 15 |}
    | _ => inl "fromisoformat: argument must be str"
    end;
  json_dumps _ := inr "{}";
  put_item _ := inr ();
  get_item _ := inr None;
  query_aggregations _ _ _ := inr (Some []);
  put_object _ _ _ := inr ();
  start_query_execution _ := inr "q-1";
  get_query_execution _ _ :=
    inr {| State := "RUNNING"; StateChangeReason := None |};
  get_query_results _ _ := inr [];
  batch_put_item _ _ := inr ();
  batch_exit _ _ := inr ();
|}.

(** As [healthy], with the given answers of S3, of the point store's
    [get_item] and of the aggregation query. *)
Definition with_stores (s3 : exn + unit) (item : exn + option dict)
    (items : exn + option (list dict)) : backend := {|
  datetime_now := datetime_now healthy;
  fromisoformat := fromisoformat healthy;
  json_dumps := json_dumps healthy;
  put_item := put_item healthy;
  get_item _ := item;
  query_aggregations _ _ _ := items;
  put_object _ _ _ := s3;
  start_query_execution := start_query_execution healthy;
  get_query_execution := get_query_execution healthy;
  get_query_results := get_query_results healthy;
  batch_put_item := batch_put_item healthy;
  batch_exit := batch_exit healthy;
|}.

(** As [healthy], with a query that is RUNNING for [k] polls, then in the
    given status, and has the given result rows. *)
Definition with_query (k : nat) (final : query_status) (rows : list row)
    : backend := {|
  datetime_now := datetime_now healthy;
  fromisoformat := fromisoformat healthy;
  json_dumps := json_dumps healthy;
  put_item := put_item healthy;
  get_item := get_item healthy;
  query_aggregations := query_aggregations healthy;
  put_object := put_object healthy;
  start_query_execution := start_query_execution healthy;
  get_query_execution _ attempt :=
    if decide (attempt < k)
    then inr {| State := "RUNNING"; StateChangeReason := None |}
    else inr final;
  get_query_results _ _ := inr rows;
  batch_put_item := batch_put_item healthy;
  batch_exit := batch_exit healthy;
|}.

(** As [healthy], with the given answers of the batch writer. *)
Definition with_batch_writer_answers (put : nat → dict → exn + unit)
    (exit : nat → bool → exn + unit) : backend := {|
  datetime_now := datetime_now healthy;
  fromisoformat := fromisoformat healthy;
  json_dumps := json_dumps healthy;
  put_item := put_item healthy;
  get_item := get_item healthy;
  query_aggregations := query_aggregations healthy;
  put_object := put_object healthy;
  start_query_execution := start_query_execution healthy;
  get_query_execution := get_query_execution healthy;
  get_query_results := get_query_results healthy;
  batch_put_item := put;
  batch_exit := exit;
|}.

Definition click (user_id : string) : dict :=
  {[ "user_id" := VStr user_id; "event_type" := VStr "click" ]}.

(** An event as the service receives it from [create_event]. *)
Definition stored_click : dict :=
  <["event_id" := VStr "u1_1705314601"]>
    (<["timestamp" := VStr "2024-01-15T10:30:00"]> (click "u1")).

(** A request body that brings its own [timestamp] and [event_id]. *)
Definition click_with_metadata : dict :=
  <["event_id" := VStr "custom-1"]>
    (<["timestamp" := VStr "2020-01-01T00:00:00"]> (click "u1")).

Definition start : world * unit := (initial_world, ()).

(** An item of the point store, and a backend that holds it. *)
Definition holding (item : option dict) : backend :=
  with_stores (inr ()) (inr item) (inr (Some [])).

(** S3 refuses every object. *)
Definition s3_down : backend :=
  with_stores (inl "AccessDenied") (inr None) (inr (Some [])).

(** Two daily aggregation records, and a backend that answers with them. *)
Definition daily_page_views : list dict :=
  [ {[ "metric" := VStr "page_views"; "date" := VStr "2024-01-14";
       "count" := VInt 10 ]};
    {[ "metric" := VStr "page_views"; "date" := VStr "2024-01-15";
       "count" := VInt 12 ]} ].

Definition aggregated : backend :=
  with_stores (inr ()) (inr None) (inr (Some daily_page_views)).

(** The batch writer accepts every item and fails when it is left. *)
Definition flush_fails : backend :=
  with_batch_writer_answers (λ _ _, inr ())
    (λ _ _, inl "ProvisionedThroughputExceededException").

(** As [flush_fails], for the batch that starts at offset 25 only. *)
Definition second_chunk_fails : backend :=
  with_batch_writer_answers (λ _ _, inr ())
    (λ i _, if decide (i = 25)
            then inl "ProvisionedThroughputExceededException" else inr ()).

Definition thirty_clicks : list dict := replicate 30 (click "u1").

(** A result set: a header and two rows, the second with a NULL. *)
Definition two_rows : list row :=
  [ [Some "user_id"; Some "n"];
    [Some "u1"; Some "3"];
    [Some "u2"; None] ].

Definition failed_status : query_status :=
  {| State := "FAILED"; StateChangeReason := Some "syntax error" |}.

Definition succeeded_status : query_status :=
  {| State := "SUCCEEDED"; StateChangeReason := None |}.

Definition select_all : dict := {[ "sql" := VStr "SELECT * FROM events" ]}.

End Scenarios.

(** ** Vocabulary of the statements below *)
Module Spec.
Import AnalyticsService.

(** The state after further requests [tr] were sent. *)
Definition add_calls {L} (tr : list call) (s : world * L) : world * L :=
  (World (clock s.1) (stdout s.1) (calls s.1 ++ tr), s.2).

(** [k] polls of a query that is not in a terminal state, each followed by
    the pause. *)
Definition polling_trace (qid : string) (k : nat) : list call :=
  concat (replicate k [GetQueryExecution qid; Sleep 1]).

Definition is_poll (c : call) : bool :=
  match c with GetQueryExecution _ => true | _ => false end.

Definition is_fetch (c : call) : bool :=
  match c with GetQueryResults _ _ => true | _ => false end.

Definition is_enter (c : call) : bool :=
  match c with BatchWriterEnter => true | _ => false end.

Definition count_calls (p : call → bool) (tr : list call) : nat :=
  length (List.filter p tr).

(** The backend answers the given poll with a state that is not terminal. *)
Definition pending (env : backend) (qid : string) (attempt : nat) : Prop :=
  ∃ st, get_query_execution env qid attempt = inr st
        ∧ State st ∉ ["SUCCEEDED"; "FAILED"; "CANCELLED"].

(** Follows the spec's words: a data row as a mapping keyed by the header
    names. Where a name repeats, its last column stays. *)
Definition spec_row_mapping (columns : list string) (r : row) : parsed_row :=
  list_to_map (reverse (zip columns (default "" <$> r))).

(** What [execute_athena_query]'s handler makes of the outcome of its
    [try] block. *)
Definition wrap_athena {L} (r : (exn + query_result) * (world * L))
    : (exn + query_result) * (world * L) :=
  match r with
  | (inl e, s') => (inl ("Failed to execute Athena query: " +:+ e), s')
  | (inr a, s') => (inr a, s')
  end.

(** The event [create_event] hands to the service when the clock has been
    read [clock] times: the request body with [timestamp] and [event_id]
    assigned. *)
Definition created_event (env : backend) (event_data : dict)
    (user_id : value) (clock : nat) : dict :=
  <["event_id" := VStr (py_str user_id +:+ "_"
                        +:+ pretty (unix_seconds (datetime_now env (S clock))))]>
    (<["timestamp" := VStr (isoformat (datetime_now env clock))]> event_data).

(** The positions of [events[i:i + batch_size]] in a list of [n] events. *)
Definition chunk_positions (n i : nat) : list nat :=
  slice (seq 0 n) i (i + batch_size).

(** What a chunk adds to [failed], given how its [try] block ended. *)
Definition failed_block (outcome : exn + unit) (batch : list nat)
    : list (nat * exn) :=
  match outcome with
  | inl e => (λ p, (p, e)) <$> batch
  | inr _ => []
  end.

(** How the [try] blocks of the chunks end, chunk after chunk. *)
Fixpoint chunk_outcomes (env : backend) (chunks : list nat)
    (st : world * batch_locals) : list (exn + unit) :=
  match chunks with
  | [] => []
  | i :: rest =>
      (store_chunk_try env i (chunk_positions (length (l_events st.2)) i) st).1
      :: chunk_outcomes env rest (store_chunk env i st).2
  end.

(** The locals [store_events_batch] starts with. *)
Definition batch_start {L} (events : list dict) (s : world * L)
    : world * batch_locals :=
  (s.1, {| l_events := events; l_successful := []; l_failed := [] |}).

(** An entry of [failed] as returned: it holds the event object itself. *)
Definition resolve (events : list dict) (pe : nat * exn) : dict * exn :=
  (events !!! pe.1, pe.2).

(** [steps n f s s']: from [s] to [s'] the events only gained fields,
    [failed] gained [f], [successful] only grew, and [n] batch writers were
    opened. *)
Record steps (n : nat) (f : list (nat * exn)) (s s' : world * batch_locals)
    : Prop := {
  steps_events : Forall2 (⊆) (l_events s.2) (l_events s'.2);
  steps_failed : l_failed s'.2 = l_failed s.2 ++ f;
  steps_successful : l_successful s.2 `prefix_of` l_successful s'.2;
  steps_calls :
    ∃ tr, calls s'.1 = calls s.1 ++ tr ∧ count_calls is_enter tr = n;
}.

End Spec.

(** ** [AnalyticsService.get_user_events] *)
Module UserEventsService.

(** What varies in the request of [events_table.query]: the index, the
    [:user_id] of the key condition, [Limit] and [ScanIndexForward]. *)
Record index_query := {
  IndexName : string;
  user_id : string;
  Limit : Z;
  ScanIndexForward : bool;
}.

Section service.
(** [events_table.query]; the result is the ['Items'] entry. *)
Variable query : index_query → exn + option (list dict).

Definition get_user_events {L} (user_id : string) (limit : Z)
    : M L (list dict) :=
  try_except
    (response ← of_result
       (query {| IndexName := "user_id-timestamp-index"; user_id := user_id;
                 Limit := limit; ScanIndexForward := false |});
     mret (default [] response))
    (λ e, raise ("Failed to get user events: " +:+ e)).

End service.
End UserEventsService.

(** ** [GET /users/<user_id>/events] *)
Module UserEventsHandler.

(** The JSON bodies of the route. *)
Inductive json :=
| Error (error : exn)
| Events (user_id : string) (count : nat) (events : list dict)
    (** [{"user_id": .., "count": .., "events": ..}] *).

Record response := Response { status_code : nat; body : json }.

Section handler.
Variable query : UserEventsService.index_query → exn + option (list dict).
(** [int(s)] of a string. *)
Variable int : string → exn + Z.

(** [params] is [app.current_event.query_string_parameters]. *)
Definition get_user_events (user_id : string)
    (params : option (gmap string string)) : M unit response :=
  try_except
    (let params := default ∅ params in
     limit ← match params !! "limit" with
             | Some s => of_result (int s)
             | None => mret 100%Z
             end;
     events ← UserEventsService.get_user_events query user_id limit;
     mret (Response 200 (Events user_id (length events) events)))
    (λ e, mret (Response 500 (Error e))).

End handler.
End UserEventsHandler.


(** ** More vocabulary *)
Module Vocabulary.
Import AnalyticsService Spec.

(** The items handed to [writer.put_item], oldest first. *)
Definition written (tr : list call) : list dict :=
  omap (λ c, match c with BatchWriterPutItem item => Some item | _ => None end) tr.

(** An event with [timestamp] and [event_id] filled in where it had none. *)
Definition with_metadata (env : backend) (clock : nat) (event user_id : _)
    : dict :=
  let event1 :=
    <["timestamp" := default (VStr (isoformat (datetime_now env clock)))
                             (event !! "timestamp")]> event in
  <["event_id" :=
      default (VStr (py_str user_id +:+ "_"
                     +:+ pretty (unix_seconds (datetime_now env (S clock)))))
              (event1 !! "event_id")]> event1.

(** [stored env events0 calls0 c0 k st]: the first [k] events have been
    handed to the writer, and nothing else has changed. *)
Record stored (env : backend) (events0 : list dict) (calls0 : list call)
    (c0 k : nat) (st : world * batch_locals) : Prop := {
  stored_failed : l_failed st.2 = [];
  stored_length : length (l_events st.2) = length events0;
  stored_rest : drop k (l_events st.2) = drop k events0;
  stored_done : ∀ q event, q < k → events0 !! q = Some event →
    ∃ user_id, event !! "user_id" = Some user_id
      ∧ l_events st.2 !! q = Some (with_metadata env (c0 + 2 * q) event user_id);
  stored_ids :
    Forall2 (λ (event : dict) id, event !! "event_id" = Some id)
            (take k (l_events st.2)) (l_successful st.2);
  stored_clock : clock st.1 = c0 + 2 * k;
  stored_calls : ∃ tr, calls st.1 = calls0 ++ tr
                       ∧ written tr = take k (l_events st.2);
}.

(** The [user_id] of the event at position [q], if both exist. *)
Definition user_id_at (st : world * batch_locals) (q : nat) : option value :=
  l_events st.2 !! q ≫= (.!! "user_id").

(** [same_users s s']: no event gained, lost or changed its [user_id]. *)
Definition same_users (s s' : world * batch_locals) : Prop :=
  ∀ q, user_id_at s' q = user_id_at s q.


End Vocabulary.

(** ** More backends *)
Module MoreScenarios.
Import Scenarios.

(** As [healthy], with the given answers of the point store's [put_item]
    and of Athena: to the start of a query, to each poll, and to the fetch
    of the results. *)
Definition with_answers (put : exn + unit) (started : exn + string)
    (polled : nat → exn + query_status) (rows : exn + list row) : backend := {|
  datetime_now := datetime_now healthy;
  fromisoformat := fromisoformat healthy;
  json_dumps := json_dumps healthy;
  put_item _ := put;
  get_item := get_item healthy;
  query_aggregations := query_aggregations healthy;
  put_object := put_object healthy;
  start_query_execution _ := started;
  get_query_execution _ := polled;
  get_query_results _ _ := rows;
  batch_put_item := batch_put_item healthy;
  batch_exit := batch_exit healthy;
|}.

Definition running : exn + query_status :=
  inr {| State := "RUNNING"; StateChangeReason := None |}.

(** The point store refuses every put. *)
Definition put_fails : backend :=
  with_answers (inl "ProvisionedThroughputExceededException")
    (inr "q-1") (λ _, running) (inr []).

(** Athena refuses to start a query. *)
Definition athena_down : backend :=
  with_answers (inr ()) (inl "AccessDeniedException") (λ _, running) (inr []).

(** The third poll of a query raises. *)
Definition poll_throttled : backend :=
  with_answers (inr ()) (inr "q-1")
    (λ attempt, if decide (attempt < 2) then running
                else inl "ThrottlingException")
    (inr []).

(** A result set whose data row has a cell more than its header. *)
Definition wide_rows : list row :=
  [ [Some "user_id"]; [Some "u1"; Some "3"] ].

(** The query succeeds at once, with the given rows. *)
Definition answering (rows : list row) : backend :=
  with_answers (inr ()) (inr "q-1") (λ _, inr succeeded_status) (inr rows).

(** What [two_rows] parses to. *)
Definition parsed_two_rows : list parsed_row :=
  [ {[ "user_id" := "u1"; "n" := "3" ]};
    {[ "user_id" := "u2"; "n" := "" ]} ].

(** A result set whose header has a cell without [VarCharValue]. *)
Definition unnamed_header : list row :=
  [ [Some "user_id"; None]; [Some "u1"; Some "3"] ].

(** Two events, the second without [user_id] and with its own
    [event_id]. *)
Definition anonymous_click : dict :=
  {[ "event_type" := VStr "click"; "event_id" := VStr "custom-2" ]}.

(** The index of one user's events, and [int] on two strings. *)
Definition user_index (q : UserEventsService.index_query)
    : exn + option (list dict) :=
  inr (Some (take (Z.to_nat (UserEventsService.Limit q))
               [stored_click; click_with_metadata])).

Definition int_of (s : string) : exn + Z :=
  if decide (s = "1") then inr 1%Z
  else inl ("invalid literal for int() with base 10: '" +:+ s +:+ "'").

End MoreScenarios.

Import AnalyticsService Spec.

(** ** Proof steps shared below *)

Ltac eff :=
  unfold mbind, M_bind, mret, M_ret, bind, ret, raise, try_except, attempt,
    of_result, get_locals, modify_locals, modify_world, get_world, send,
    print, getitem, with_locals in *;
  simpl in *.

Ltac cc := unfold count_calls in *; simpl in *; lia.

(** ** Event storage: the archival write is best effort *)
Section archival.
Context {L : Type}.
Variable env : backend.

Lemma _store_event_to_s3_never_raises (event_data : dict) (s : world * L) :
  ∃ w', _store_event_to_s3 env event_data s = (inr (), (w', s.2))
        ∧ clock w' = clock s.1.
Proof.
  destruct s as [w l].
  unfold _store_event_to_s3, _store_event_to_s3_try. eff.
  destruct (event_data !! "timestamp"); simpl; [|eauto].
  destruct (fromisoformat env _); simpl; [eauto|].
  destruct (event_data !! "event_id"); simpl; [|eauto].
  destruct (json_dumps env _); simpl; [eauto|].
  destruct (put_object env _ _ _) as [?|[]]; simpl; eauto.
Qed.

Lemma _store_event_to_s3_warns (event_data : dict) (s : world * L) e :
  (_store_event_to_s3_try env event_data s).1 = inl e →
  stdout (_store_event_to_s3 env event_data s).2.1
  = (stdout s.1 ++ ["Warning: Failed to store event to S3: " +:+ e])%list.
Proof.
  destruct s as [w l].
  unfold _store_event_to_s3. eff.
  destruct (_store_event_to_s3_try env event_data (w, l))
    as [[e'|[]] [w' l']] eqn:E; simpl; [|done].
  intros [= ->]. revert E.
  unfold _store_event_to_s3_try. eff.
  destruct (event_data !! "timestamp"); simpl; [|by intros [= <- <-]].
  destruct (fromisoformat env _); simpl; [by intros [= <- <-]|].
  destruct (event_data !! "event_id"); simpl; [|by intros [= <- <-]].
  destruct (json_dumps env _); simpl; [by intros [= <- <-]|].
  destruct (put_object env _ _ _) as [?|[]]; simpl;
    [by intros [= <- <-]|done].
Qed.

Lemma store_event_returns (event_data : dict) (eid : value) (s : world * L) :
  put_item env event_data = inr () →
  event_data !! "event_id" = Some eid →
  (store_event env event_data s).1
  = inr {| status := "success"; event_id := eid |}.
Proof.
  intros Hput Hid.
  destruct s as [w l]. unfold store_event. eff. rewrite Hput. simpl.
  destruct (_store_event_to_s3_never_raises event_data
              (World (clock w) (stdout w) (calls w ++ [PutItem event_data]), l))
    as (w' & -> & _).
  simpl. by rewrite Hid.
Qed.

(** C1. Whatever the archival write does, [store_event] returns
    [{"status": "success", "event_id": ..}] once the point-store put
    succeeded, for an event that carries the [event_id] it returns. The
    backend is arbitrary, so the same value is returned when S3 accepts the
    object and when it raises. [_store_event_to_s3] itself never raises,
    and prints a warning with the message of whatever its [try] block
    raised. *)
Theorem store_event_ignores_archival_failure (event_data : dict)
    (eid : value) (s : world * L) :
  put_item env event_data = inr () →
  event_data !! "event_id" = Some eid →
  (store_event env event_data s).1
  = inr {| status := "success"; event_id := eid |}
  ∧ (∀ s' : world * L,
       ∃ w', _store_event_to_s3 env event_data s' = (inr (), (w', s'.2)))
  ∧ (∀ (s' : world * L) e,
       (_store_event_to_s3_try env event_data s').1 = inl e →
       stdout (_store_event_to_s3 env event_data s').2.1
       = (stdout s'.1 ++ ["Warning: Failed to store event to S3: " +:+ e])%list).
Proof.
  intros Hput Hid. split_and!.
  - by apply store_event_returns.
  - intros s'.
    destruct (_store_event_to_s3_never_raises event_data s') as (w' & ? & _).
    eauto.
  - intros s' e. apply _store_event_to_s3_warns.
Qed.

(** [store_event] starts with the put, so it cannot run unnoticed. *)
Lemma store_event_sends_put_item (event_data : dict) (s : world * L) :
  ∃ rest, calls (store_event env event_data s).2.1
          = (calls s.1 ++ PutItem event_data :: rest)%list.
Proof.
  destruct s as [w l]. unfold store_event. eff.
  destruct (put_item env event_data) as [e|[]]; simpl.
  { by exists []. }
  unfold _store_event_to_s3, _store_event_to_s3_try. eff.
  destruct (event_data !! "timestamp"); simpl.
  2:{ destruct (event_data !! "event_id"); simpl; by exists []. }
  destruct (fromisoformat env _); simpl.
  { destruct (event_data !! "event_id"); simpl; by exists []. }
  destruct (event_data !! "event_id"); simpl; [|by exists []].
  destruct (json_dumps env _); simpl; [by exists []|].
  destruct (put_object env _ _ _) as [?|[]]; simpl;
    rewrite <- app_assoc; simpl; eauto.
Qed.

(** A failed put is the one failure of [store_event]'s backends that
    reaches the caller. *)
Lemma store_event_put_failure (event_data : dict) (e : exn) (s : world * L) :
  put_item env event_data = inl e →
  (store_event env event_data s).1 = inl ("Failed to store event: " +:+ e).
Proof.
  intros Hput. destruct s as [w l]. unfold store_event. eff. by rewrite Hput.
Qed.

End archival.

(** ** Reads *)
Section reads.
Context {L : Type}.
Variable env : backend.

(** C8. [get_analytics] returns the items of the range query unchanged and
    in order, whatever [group_by] is; the hour, week and month regroupings
    are the identity. *)
Theorem get_analytics_returns_items_unchanged
    (metric start_date end_date group_by : string) (items : list dict)
    (s : world * L) :
  query_aggregations env metric start_date end_date = inr (Some items) →
  (get_analytics env metric start_date end_date group_by s).1 = inr items
  ∧ _group_by_hour items = items
  ∧ _group_by_week items = items
  ∧ _group_by_month items = items.
Proof.
  intros Hq. split; [|done].
  destruct s as [w l]. unfold get_analytics. eff. rewrite Hq. simpl.
  repeat case_decide; done.
Qed.

End reads.

Section router_reads.
Variable env : backend.

(** C9. An absent event is a normal result of the service ([None], not an
    exception) and the route answers 404; a failure of the lookup is an
    exception and a 500; a present event is the body of a 200. *)
Theorem get_event_absent_is_404 (event_id : string) (s : world * unit) :
  (get_item env event_id = inr None →
     (AnalyticsService.get_event env event_id s).1 = inr None
     ∧ (ApiHandler.get_event env event_id s).1
       = inr (ApiHandler.Response 404 (ApiHandler.Error "Event not found")))
  ∧ (∀ e, get_item env event_id = inl e →
     (AnalyticsService.get_event env event_id s).1
     = inl ("Failed to get event: " +:+ e)
     ∧ (ApiHandler.get_event env event_id s).1
       = inr (ApiHandler.Response 500
                (ApiHandler.Error ("Failed to get event: " +:+ e))))
  ∧ (∀ item, get_item env event_id = inr (Some item) → item ≠ ∅ →
     (AnalyticsService.get_event env event_id s).1 = inr (Some item)
     ∧ (ApiHandler.get_event env event_id s).1
       = inr (ApiHandler.Response 200 (ApiHandler.Event item))).
Proof.
  destruct s as [w l]. split_and!.
  - intros H. unfold ApiHandler.get_event, get_event. eff. by rewrite H.
  - intros e H. unfold ApiHandler.get_event, get_event. eff. by rewrite H.
  - intros item H Hne. unfold ApiHandler.get_event, get_event. eff.
    rewrite H. simpl. by case_decide.
Qed.

(** ** Validation at the router *)


End router_reads.

(** ** SQL queries: the polling loop *)
Section polling.
Context {L : Type}.
Variable env : backend.

Lemma add_calls_app tr1 tr2 (s : world * L) :
  add_calls tr2 (add_calls tr1 s) = add_calls (tr1 ++ tr2) s.
Proof. unfold add_calls. simpl. by rewrite app_assoc. Qed.

Lemma add_calls_nil (s : world * L) : add_calls [] s = s.
Proof. destruct s as [[] ?]. unfold add_calls. simpl. by rewrite app_nil_r. Qed.

Lemma poll_pending_step qid attempt rest (s : world * L) :
  pending env qid attempt →
  poll env qid (attempt :: rest) s
  = poll env qid rest (add_calls [GetQueryExecution qid; Sleep 1] s).
Proof.
  intros (st & Hst & Hnt). destruct s as [w l]. simpl. eff. rewrite Hst. simpl.
  destruct (decide (State st = "SUCCEEDED")) as [Heq|?].
  { exfalso. apply Hnt. rewrite Heq. apply list_elem_of_here. }
  destruct (decide (State st ∈ ["FAILED"; "CANCELLED"])) as [Hin|?].
  { exfalso. apply Hnt. by apply list_elem_of_further. }
  simpl. unfold add_calls. simpl. by rewrite <- app_assoc.
Qed.

Lemma poll_pending_prefix qid k : ∀ m start (s : world * L),
  (∀ j, start ≤ j < start + k → pending env qid j) →
  poll env qid (seq start (k + m)) s
  = poll env qid (seq (start + k) m) (add_calls (polling_trace qid k) s).
Proof.
  induction k as [|k IH]; intros m start s Hp.
  - unfold polling_trace. simpl. by rewrite add_calls_nil, Nat.add_0_r.
  - simpl seq. rewrite poll_pending_step. 2:{ apply Hp. lia. }
    rewrite IH. 2:{ intros j Hj. apply Hp. lia. }
    rewrite add_calls_app. unfold polling_trace. simpl.
    by replace (start + S k) with (S (start + k)) by lia.
Qed.

Lemma poll_requests qid : ∀ attempts (s : world * L),
  ∃ tr, (poll env qid attempts s).2 = add_calls tr s
        ∧ count_calls is_poll tr ≤ length attempts
        ∧ count_calls is_fetch tr ≤ 1
        ∧ ∀ n, Sleep n ∈ tr → n = 1.
Proof.
  assert (Hno : ∀ c n, c ≠ Sleep n → Sleep n ∈ [c] → n = 1).
  { intros c n Hc Hin. apply list_elem_of_singleton in Hin. congruence. }
  induction attempts as [|a rest IH]; intros s.
  - exists []. rewrite add_calls_nil.
    split_and!; [done|cc|cc|].
    intros x Hx. by apply elem_of_nil in Hx.
  - destruct s as [w l]. simpl. eff.
    destruct (get_query_execution env qid a) as [e|st]; simpl.
    { exists [GetQueryExecution qid].
      split_and!; [done|cc|cc|].
      intros x. by apply Hno. }
    destruct (decide (State st = "SUCCEEDED")).
    { exists [GetQueryExecution qid; GetQueryResults qid 1000].
      split_and!; [|cc|cc|].
      - destruct (get_query_results env qid 1000); simpl;
          [|destruct (_parse_athena_results _); simpl];
          unfold add_calls; simpl; by rewrite <- app_assoc.
      - intros x. rewrite !elem_of_cons, elem_of_nil.
        intros [?|[?|[]]]; done. }
    destruct (decide (State st ∈ ["FAILED"; "CANCELLED"])).
    { exists [GetQueryExecution qid].
      split_and!; [done|cc|cc|].
      intros x. by apply Hno. }
    simpl.
    destruct (IH (World (clock w) (stdout w)
                    ((calls w ++ [GetQueryExecution qid]) ++ [Sleep 1]), l))
      as (tr & Htr & Hp & Hf & Hs).
    exists ([GetQueryExecution qid; Sleep 1] ++ tr). rewrite Htr.
    unfold count_calls in *.
    split_and!; [|cc|cc|].
    + unfold add_calls; simpl; by rewrite <- !app_assoc.
    + intros x. simpl. rewrite !elem_of_cons.
      intros [?|[[= ->]|?]]; [done|done|by apply Hs].
Qed.
End polling.

(** ** SQL queries: parsing the result rows *)
Section parsing.

Lemma header_columns_names (columns : list string) :
  header_columns (Some <$> columns) = inr columns.
Proof. induction columns as [|c cs IH]; csimpl; [done|by rewrite IH]. Qed.

Lemma parse_cells_inserts (columns : list string) : ∀ (r : row) i acc,
  i + length r ≤ length columns →
  parse_cells columns i r acc
  = inr (foldl (λ m p, <[p.1 := p.2]> m) acc
           (zip (drop i columns) (default "" <$> r))).
Proof.
  induction r as [|col rest IH]; intros i acc Hlen; csimpl in *.
  - by destruct (drop i columns).
  - destruct (columns !! i) as [c|] eqn:Hc.
    2:{ apply lookup_ge_None in Hc. lia. }
    rewrite IH by lia.
    rewrite (drop_S _ _ _ Hc). done.
Qed.

Lemma spec_row_mapping_foldl (columns : list string) (r : row) :
  spec_row_mapping columns r
  = foldl (λ m p, <[p.1 := p.2]> m) ∅ (zip columns (default "" <$> r)).
Proof.
  unfold spec_row_mapping.
  generalize (zip columns (default "" <$> r)). intros l.
  unfold list_to_map. rewrite <- (reverse_involutive l) at 2.
  generalize (reverse l). clear. intros l.
  induction l as [|p l IH]; simpl; [done|].
  rewrite reverse_cons, foldl_app. simpl. by rewrite IH.
Qed.

Lemma parse_rows_maps (columns : list string) : ∀ (rows : list row) data,
  Forall (λ r : row, length r ≤ length columns) rows →
  parse_rows columns rows data
  = inr (data ++ (spec_row_mapping columns <$> rows)).
Proof.
  induction rows as [|r rest IH]; intros data Hlen; simpl.
  - by rewrite app_nil_r.
  - inversion Hlen as [|?? Hr Hrest]; subst.
    rewrite parse_cells_inserts by (simpl; lia).
    rewrite IH by done. rewrite drop_0, <- spec_row_mapping_foldl.
    by rewrite <- app_assoc.
Qed.

Lemma _parse_athena_results_rows (columns : list string) (data_rows : list row) :
  Forall (λ r : row, length r ≤ length columns) data_rows →
  _parse_athena_results ((Some <$> columns) :: data_rows)
  = inr (spec_row_mapping columns <$> data_rows).
Proof.
  intros Hlen. unfold _parse_athena_results.
  rewrite header_columns_names. by rewrite parse_rows_maps.
Qed.

Lemma zip_fst_take {A B} (l : list A) : ∀ k : list B,
  (zip l k).*1 = take (length k) l.
Proof.
  induction l as [|x l IH]; intros [|y k]; csimpl; [done..|].
  by rewrite IH.
Qed.

Lemma spec_row_mapping_lookup (columns : list string) (r : row) i c v :
  NoDup columns → columns !! i = Some c → r !! i = Some v →
  spec_row_mapping columns r !! c = Some (default "" v).
Proof.
  intros Hnd Hc Hr. unfold spec_row_mapping.
  apply elem_of_list_to_map.
  - rewrite fmap_reverse, reverse_Permutation, zip_fst_take.
    eapply sublist_NoDup; [done|apply sublist_take].
  - apply elem_of_reverse, list_elem_of_lookup. exists i.
    rewrite lookup_zip_with, Hc, list_lookup_fmap, Hr. done.
Qed.
End parsing.

Section queries.
Variable env : backend.

Lemma execute_athena_query_polls {L} (sql : value) (qid : string) (k : nat) (s : world * L) :
  start_query_execution env sql = inr qid →
  k ≤ max_attempts →
  (∀ j, j < k → pending env qid j) →
  execute_athena_query env sql s
  = wrap_athena (poll env qid (seq k (max_attempts - k))
      (add_calls (StartQueryExecution sql :: polling_trace qid k) s)).
Proof.
  intros Hstart Hk Hp. unfold execute_athena_query.
  replace (seq 0 max_attempts) with (seq 0 (k + (max_attempts - k)))
    by (f_equal; lia).
  destruct s as [w l].
  unfold try_except, mbind, M_bind, bind, send, modify_world, of_result, raise.
  cbn -[poll seq max_attempts]. rewrite Hstart. cbn -[poll seq max_attempts].
  rewrite poll_pending_prefix by (intros; apply Hp; lia).
  unfold wrap_athena, add_calls. cbn -[poll seq max_attempts].
  rewrite <- app_assoc. cbn -[poll seq max_attempts].
  by destruct (poll _ _ _ _) as [[?|?] ?].
Qed.

Lemma seq_next k : k < max_attempts →
  seq k (max_attempts - k) = k :: seq (S k) (max_attempts - S k).
Proof.
  intros. replace (max_attempts - k) with (S (max_attempts - S k)) by lia. done.
Qed.

(** C4. When the poll at attempt [k] (after [k] pending ones) answers
    SUCCEEDED, the service asks once for the results, with [MaxResults]
    1000, and returns them parsed: no rows give an empty list, a header
    alone gives an empty list, and a header followed by data rows gives one
    mapping per data row, keyed by the header names, a cell without value
    read as the empty string. The header cells carry their names and no
    data row is wider than the header, as in every result set of the
    backend. *)
Theorem execute_query_succeeded {L} (sql : value) (qid : string) (k : nat)
    (reason : option string) (rows : list row) (s : world * L) :
  start_query_execution env sql = inr qid →
  k < max_attempts →
  (∀ j, j < k → pending env qid j) →
  get_query_execution env qid k
    = inr {| State := "SUCCEEDED"; StateChangeReason := reason |} →
  get_query_results env qid 1000 = inr rows →
  let r := execute_athena_query env sql s in
  let answer results :=
    inr {| query_execution_id := qid; query_status_text := "success";
           results := results |} in
  r.2 = add_calls (StartQueryExecution sql :: polling_trace qid k
                   ++ [GetQueryExecution qid; GetQueryResults qid 1000]) s
  ∧ (rows = [] → r.1 = answer [])
  ∧ (∀ columns, rows = [Some <$> columns] → r.1 = answer [])
  ∧ (∀ columns data_rows,
       rows = (Some <$> columns) :: data_rows →
       Forall (λ r : row, length r ≤ length columns) data_rows →
       r.1 = answer (spec_row_mapping columns <$> data_rows)).
Proof.
  intros Hstart Hk Hp Hst Hrows r answer. subst r.
  rewrite (execute_athena_query_polls sql qid k) by (done || lia).
  rewrite seq_next by done. simpl. eff. rewrite Hst. simpl. rewrite Hrows. simpl.
  assert (Hheader : ∀ columns data_rows,
    rows = (Some <$> columns) :: data_rows →
    Forall (λ r : row, length r ≤ length columns) data_rows →
    _parse_athena_results rows = inr (spec_row_mapping columns <$> data_rows)).
  { intros columns data_rows -> Hlen. by apply _parse_athena_results_rows. }
  split_and!.
  - destruct (_parse_athena_results rows); simpl;
      unfold add_calls; simpl; by rewrite <- !app_assoc.
  - by intros ->.
  - intros columns Hr. by rewrite (Hheader columns []).
  - intros columns data_rows Hr Hlen. by rewrite (Hheader columns data_rows).
Qed.

(** C5. When the poll at attempt [k] answers FAILED or CANCELLED, the
    service raises [Query failed: <reason>] (wrapped by its own handler),
    never asks for results, and the route answers 500 with that message;
    a reason the backend stated is the end of the message. The code has one
    exception class; the kinds of failure differ by their message. *)
Theorem execute_query_failed (sql : value) (qid : string) (k : nat)
    (state : string) (reason : option string) (s : world * unit) :
  start_query_execution env sql = inr qid →
  k < max_attempts →
  (∀ j, j < k → pending env qid j) →
  get_query_execution env qid k
    = inr {| State := state; StateChangeReason := reason |} →
  state ∈ ["FAILED"; "CANCELLED"] →
  let message := "Failed to execute Athena query: Query failed: "
                 +:+ default "Unknown error" reason in
  execute_athena_query env sql s
  = (inl message,
     add_calls (StartQueryExecution sql :: polling_trace qid k
                ++ [GetQueryExecution qid]) s)
  ∧ (∀ query_data : dict, query_data !! "sql" = Some sql →
       (ApiHandler.execute_query env query_data s).1
       = inr (ApiHandler.Response 500 (ApiHandler.Error message)))
  ∧ (∀ stated, reason = Some stated →
       ∃ prefix, message = prefix +:+ stated).
Proof.
  intros Hstart Hk Hp Hst Hin message.
  assert (Hsvc : execute_athena_query env sql s
    = (inl message,
       add_calls (StartQueryExecution sql :: polling_trace qid k
                  ++ [GetQueryExecution qid]) s)).
  { rewrite (execute_athena_query_polls sql qid k) by (done || lia).
    rewrite seq_next by done. simpl. eff. rewrite Hst. simpl.
    destruct (decide (state = "SUCCEEDED")) as [->|_].
    { exfalso. revert Hin. rewrite !elem_of_cons, elem_of_nil.
      intros [?|[?|[]]]; done. }
    destruct (decide (state ∈ ["FAILED"; "CANCELLED"])); [|done].
    simpl. unfold add_calls. simpl. by rewrite <- !app_assoc. }
  split_and!; [done| |].
  - intros query_data Hsql. unfold ApiHandler.execute_query.
    unfold try_except, mbind, M_bind, bind. rewrite Hsql, Hsvc. done.
  - intros stated ->. by eexists.
Qed.

(** C6. Whatever the backend answers, a query is polled at most 30 times
    and every pause lasts 1; when all 30 polls find the query pending the
    service stops with [Query timeout], after exactly 30 polls and pauses,
    and the route answers 500. The loop is a structural recursion over
    [range(max_attempts)], so the call always returns. *)
Theorem polling_is_bounded (sql : value) (s : world * unit) :
  (∃ tr, (execute_athena_query env sql s).2 = add_calls tr s
         ∧ count_calls is_poll tr ≤ 30
         ∧ ∀ n, Sleep n ∈ tr → n = 1)
  ∧ (∀ qid, start_query_execution env sql = inr qid →
       (∀ j, j < 30 → pending env qid j) →
       execute_athena_query env sql s
       = (inl "Failed to execute Athena query: Query timeout",
          add_calls (StartQueryExecution sql :: polling_trace qid 30) s)
       ∧ ∀ query_data : dict, query_data !! "sql" = Some sql →
           (ApiHandler.execute_query env query_data s).1
           = inr (ApiHandler.Response 500
                    (ApiHandler.Error
                       "Failed to execute Athena query: Query timeout"))).
Proof.
  split.
  - unfold execute_athena_query. destruct s as [w l].
    unfold try_except, mbind, M_bind, bind, send, modify_world, of_result, raise.
    cbn -[poll seq max_attempts].
    destruct (start_query_execution env sql) as [e|qid]; cbn -[poll seq max_attempts].
    { exists [StartQueryExecution sql]. split_and!; [done|cc|].
      intros n Hn. apply list_elem_of_singleton in Hn. done. }
    destruct (poll_requests env qid (seq 0 max_attempts)
                (World (clock w) (stdout w) (calls w ++ [StartQueryExecution sql]), l))
      as (tr & Htr & Hp & _ & Hs).
    exists (StartQueryExecution sql :: tr).
    rewrite length_seq in Hp. unfold max_attempts in Hp.
    split_and!; [|cc|].
    + destruct (poll _ _ _ _) as [[?|?] ?]; simpl in *; rewrite Htr;
        unfold add_calls; simpl; by rewrite <- app_assoc.
    + intros n. rewrite elem_of_cons. intros [?|?]; [done|by apply Hs].
  - intros qid Hstart Hp.
    assert (Hsvc : execute_athena_query env sql s
      = (inl "Failed to execute Athena query: Query timeout",
         add_calls (StartQueryExecution sql :: polling_trace qid 30) s)).
    { rewrite (execute_athena_query_polls sql qid 30) by (done || (unfold max_attempts; lia)).
      done. }
    split; [done|].
    intros query_data Hsql. unfold ApiHandler.execute_query.
    unfold try_except, mbind, M_bind, bind. rewrite Hsql, Hsvc. done.
Qed.
End queries.

(** ** Batch storage: what one event and one chunk do to the locals *)
Section batch.
Variable env : backend.

Lemma steps_refl s : steps 0 [] s s.
Proof.
  split; [done|by rewrite app_nil_r|done|].
  exists []. by rewrite app_nil_r.
Qed.

Lemma steps_trans n1 f1 n2 f2 s s' s'' :
  steps n1 f1 s s' → steps n2 f2 s' s'' → steps (n1 + n2) (f1 ++ f2) s s''.
Proof.
  intros [He1 Hf1 Hs1 (tr1 & Hc1 & Hn1)] [He2 Hf2 Hs2 (tr2 & Hc2 & Hn2)]. split.
  - by etrans.
  - by rewrite Hf2, Hf1, app_assoc.
  - by etrans.
  - exists (tr1 ++ tr2). rewrite Hc2, Hc1, app_assoc. split; [done|].
    unfold count_calls in *. by rewrite List.filter_app, length_app, Hn1, Hn2.
Qed.

Lemma steps_world n tr w l :
  count_calls is_enter tr = n →
  steps n [] (w, l) (World (clock w) (stdout w) (calls w ++ tr), l).
Proof.
  intros Hn. split; simpl;
    [done|by rewrite app_nil_r|done|eauto].
Qed.

Lemma steps0_bind {A B} (m : M batch_locals A) (k : A → M batch_locals B) s :
  steps 0 [] s (m s).2 →
  (∀ a s1, m s = (inr a, s1) → steps 0 [] s1 (k a s1).2) →
  steps 0 [] s ((m ≫= k) s).2.
Proof.
  intros Hm Hk. unfold mbind, M_bind, bind.
  destruct (m s) as [[e|a] s1] eqn:E; [done|].
  apply (steps_trans 0 [] 0 [] _ _ _ Hm). by apply Hk.
Qed.

Lemma insert_default_subseteq (m : dict) (k : string) (d : value) :
  m ⊆ <[k := default d (m !! k)]> m.
Proof.
  destruct (m !! k) as [v|] eqn:E; simpl.
  - by rewrite insert_id.
  - by apply insert_subseteq.
Qed.

Lemma now_steps s : steps 0 [] s (now env s).2.
Proof.
  destruct s as [w l]. unfold now. eff.
  split; simpl; [done|by rewrite app_nil_r|done|].
  exists []. by rewrite app_nil_r.
Qed.

Lemma write_default_steps p k d s :
  steps 0 [] s
    (write_event p k (default d ((l_events s.2 !!! p) !! k)) s).2.
Proof.
  destruct s as [w l]. unfold write_event. eff.
  split; simpl; [|by rewrite app_nil_r|done|exists []; by rewrite app_nil_r].
  apply Forall2_alter_r; [done|].
  intros x y Hx Hy _. simplify_eq.
  rewrite (list_lookup_total_correct _ _ _ Hx). apply insert_default_subseteq.
Qed.

Lemma _store_event_to_s3_steps event s : 
  (_store_event_to_s3 env event s).1 = inr ()
  ∧ steps 0 [] s (_store_event_to_s3 env event s).2.
Proof.
  destruct s as [w l].
  unfold _store_event_to_s3, _store_event_to_s3_try. eff.
  assert (Hp : ∀ w line, steps 0 [] (w, l)
    (World (clock w) (stdout w ++ [line]) (calls w), l)).
  { intros. split; simpl;
      [done|by rewrite app_nil_r|done|].
    exists []. by rewrite app_nil_r. }
  destruct (event !! "timestamp"); simpl. 2:{ split; [reflexivity|apply Hp]. }
  destruct (fromisoformat env _); simpl; [split; [reflexivity|apply Hp]|].
  destruct (event !! "event_id"); simpl; [|split; [reflexivity|apply Hp]].
  destruct (json_dumps env _); simpl; [split; [reflexivity|apply Hp]|].
  destruct (put_object env _ _ _) as [?|[]]; simpl.
  - split; [done|].
    eapply (steps_trans 0 [] 0 []); [|apply (Hp (World _ _ _))].
    by apply steps_world.
  - split; [done|]. by apply steps_world.
Qed.

Lemma getitem_inv {V} (d : gmap string V) k (s s1 : world * batch_locals) v :
  getitem d k s = (inr v, s1) → s1 = s.
Proof. unfold getitem. destruct (d !! k); by intros [= ]. Qed.

Lemma now_inv (s s1 : world * batch_locals) d :
  now env s = (inr d, s1) → s1.2 = s.2.
Proof. destruct s. unfold now. eff. by intros [= _ <-]. Qed.

Lemma store_batch_event_steps p s :
  steps 0 [] s (store_batch_event env p s).2.
Proof.
  unfold store_batch_event.
  apply steps0_bind; [apply now_steps|]. intros d s1 _.
  apply steps0_bind; [apply steps_refl|]. intros event s2 [= <- <-].
  apply steps0_bind; [apply write_default_steps|]. intros _ s3 _.
  apply steps0_bind; [apply steps_refl|]. intros event' s4 [= <- <-].
  apply steps0_bind.
  { unfold getitem. destruct (_ !! "user_id"); apply steps_refl. }
  intros user_id s5 ->%getitem_inv.
  apply steps0_bind; [apply now_steps|]. intros d' s6 <-%now_inv.
  apply steps0_bind; [apply write_default_steps|]. intros _ s8 _.
  apply steps0_bind; [apply steps_refl|]. intros ev s9 [= <- <-].
  apply steps0_bind. { destruct s8. by apply steps_world. } intros _ s10 _.
  apply steps0_bind. { unfold of_result. apply steps_refl. } intros _ s11 _.
  apply steps0_bind.
  { unfold getitem. destruct (_ !! "event_id"); apply steps_refl. }
  intros eid s12 _.
  apply steps0_bind.
  { destruct s12 as [w l]. unfold append_successful. eff.
    split; simpl; [done|by rewrite app_nil_r
                  |by apply prefix_app_r|exists []; by rewrite app_nil_r]. }
  intros _ s13 _. apply _store_event_to_s3_steps.
Qed.
Lemma for_each_steps {A} (body : A → M batch_locals unit) :
  (∀ x s, steps 0 [] s (body x s).2) →
  ∀ l s, steps 0 [] s (for_each l body s).2.
Proof.
  intros Hbody. induction l as [|x l IH]; intros s; simpl.
  - apply steps_refl.
  - apply (steps0_bind (body x) (λ _, for_each l body)); [apply Hbody|].
    intros _ s1 _. apply IH.
Qed.

Lemma with_batch_writer_steps i (body : M batch_locals unit) s :
  (∀ s, steps 0 [] s (body s).2) →
  steps 1 [] s (with_batch_writer env i body s).2.
Proof.
  intros Hbody. destruct s as [w l]. unfold with_batch_writer. eff.
  pose proof (Hbody (World (clock w) (stdout w) (calls w ++ [BatchWriterEnter]), l))
    as Hb.
  destruct (body _) as [r [w1 l1]]. simpl.
  assert (steps 1 [] (w, l)
    (World (clock w1) (stdout w1) (calls w1 ++ [BatchWriterExit]), l1)).
  { apply (steps_trans 1 [] 0 [] _ _ _ (steps_world 1 [BatchWriterEnter] w l eq_refl)).
    apply (steps_trans 0 [] 0 [] _ _ _ Hb). by apply steps_world. }
  destruct r as [e|[]]; simpl.
  - by destruct (batch_exit env i true) as [?|[]].
  - by destruct (batch_exit env i false) as [?|[]].
Qed.

Lemma store_chunk_try_steps i batch s :
  steps 1 [] s (store_chunk_try env i batch s).2.
Proof.
  apply with_batch_writer_steps. intros s'.
  apply for_each_steps. apply store_batch_event_steps.
Qed.

Lemma for_each_append_failed e : ∀ batch w l,
  for_each batch (λ p, append_failed p e) (w, l)
  = (inr (), (w, {| l_events := l_events l;
                    l_successful := l_successful l;
                    l_failed := l_failed l ++ ((λ p, (p, e)) <$> batch) |})).
Proof.
  induction batch as [|p batch IH]; intros w l; csimpl.
  - rewrite app_nil_r. by destruct l.
  - unfold append_failed at 1. eff. rewrite IH. simpl.
    by rewrite <- app_assoc.
Qed.

Lemma store_chunk_outcome i st :
  let batch := chunk_positions (length (l_events st.2)) i in
  let tried := store_chunk_try env i batch st in
  (store_chunk env i st).1 = inr ()
  ∧ steps 1 (failed_block tried.1 batch) st (store_chunk env i st).2
  ∧ l_successful (store_chunk env i st).2.2 = l_successful tried.2.2.
Proof.
  intros batch tried. subst tried.
  pose proof (store_chunk_try_steps i batch st) as Htry.
  unfold store_chunk.
  destruct st as [w l].
  unfold mbind, M_bind, bind, get_locals, try_except. cbn [fst snd] in *.
  change (slice (seq 0 (length (l_events l))) i (i + batch_size)) with batch.
  destruct (store_chunk_try env i batch (w, l)) as [[e|[]] [w1 l1]];
    cbn [fst snd] in *.
  - rewrite for_each_append_failed. simpl. split_and!; [done| |done].
    destruct Htry as [He Hf Hs Hc]. split; simpl in *; try done.
    rewrite Hf. by rewrite app_nil_r.
  - split_and!; done.
Qed.

Lemma store_chunks_outcome : ∀ chunks st,
  let n := length (l_events st.2) in
  let run := for_each chunks (store_chunk env) st in
  run.1 = inr ()
  ∧ steps (length chunks)
      (concat (zip_with (λ i o, failed_block o (chunk_positions n i))
                 chunks (chunk_outcomes env chunks st)))
      st run.2.
Proof.
  induction chunks as [|i chunks IH]; intros st n run; subst run n.
  - simpl. split; [done|apply steps_refl].
  - simpl.
    destruct (store_chunk_outcome i st) as (Hr & Hst & _).
    unfold mbind, M_bind, bind.
    destruct (store_chunk env i st) as [r st1] eqn:E. simpl in *. subst r.
    destruct (IH st1) as [Hr1 Hst1].
    assert (Hlen : length (l_events st1.2) = length (l_events st.2)).
    { symmetry. eapply Forall2_length, Hst. }
    rewrite Hlen in Hst1. split; [done|].
    apply (steps_trans 1 _ (length chunks) _ _ _ _ Hst Hst1).
Qed.
End batch.

(** ** Batch storage: the chunks *)
Section ranges.

Lemma chunk_positions_seq n i :
  chunk_positions n i = seq i (batch_size `min` (n - i)).
Proof.
  unfold chunk_positions, slice.
  rewrite drop_seq, take_seq. f_equal. lia.
Qed.




End ranges.

Section batch_results.
Variable env : backend.

Lemma store_events_batch_run {L} (events : list dict) (s : world * L) :
  let chunks := range3 0 (length events) batch_size in
  let final := (for_each chunks (store_chunk env) (batch_start events s)).2 in
  store_events_batch env events s
  = (inr {| successful := l_successful final.2;
            failed := resolve (l_events final.2) <$> l_failed final.2 |},
     (final.1, s.2))
  ∧ steps (length chunks)
      (concat (zip_with (λ i o, failed_block o (chunk_positions (length events) i))
                 chunks (chunk_outcomes env chunks (batch_start events s))))
      (batch_start events s) final.
Proof.
  intros chunks final.
  destruct (store_chunks_outcome env chunks (batch_start events s)) as [Hr Hst].
  split; [|exact Hst].
  unfold store_events_batch, with_locals, mbind, M_bind, bind.
  fold chunks. change (s.1, _) with (batch_start events s).
  subst final.
  destruct (for_each chunks (store_chunk env) (batch_start events s))
    as [r [w l]]. simpl in *. by subst r.
Qed.


End batch_results.

(** C7. What a chunk appended to [successful] before its [try] block
    raised stays there: the handler only appends the chunk to [failed]. So
    an event can be in both lists, as the one event of a batch whose writer
    fails on leaving the block. *)
Theorem failed_chunk_keeps_successful :
  (∀ env i (st : world * batch_locals),
     let batch := chunk_positions (length (l_events st.2)) i in
     let tried := store_chunk_try env i batch st in
     l_successful st.2 `prefix_of` l_successful tried.2.2
     ∧ l_successful (store_chunk env i st).2.2 = l_successful tried.2.2
     ∧ ∀ e, tried.1 = inl e →
         l_failed (store_chunk env i st).2.2
         = l_failed st.2 ++ ((λ p, (p, e)) <$> batch))
  ∧ ∃ (events : list dict) res s' event error eid,
      store_events_batch Scenarios.flush_fails events Scenarios.start
      = (inr res, s')
      ∧ (event, error) ∈ failed res
      ∧ event !! "event_id" = Some eid
      ∧ eid ∈ successful res.
Proof.
  split.
  - intros env i st batch tried.
    destruct (store_chunk_outcome env i st) as (_ & Hst & Hs).
    destruct (store_chunk_try_steps env i batch st) as [_ _ Hp _].
    split_and!; [exact Hp|exact Hs|].
    intros e He. destruct Hst as [_ Hf _ _]. rewrite Hf.
    fold batch. fold tried. by rewrite He.
  - exists [Scenarios.click "u1"].
    eexists _, _, _, _, _. split; [vm_compute; reflexivity|].
    split_and!.
    + apply list_elem_of_here.
    + vm_compute. reflexivity.
    + apply list_elem_of_here.
Qed.

(** ** The metadata of a stored event *)
Section metadata.
Variable env : backend.

(** [create_event] stores the body with [timestamp] and [event_id] assigned
    from the clock, whether or not the body had them, and answers with that
    [event_id]; the archival write has no part in the answer. *)
Lemma create_event_stores_generated_metadata (event_data : dict)
    (user_id : value) (s : world * unit) :
  event_data !! "user_id" = Some user_id →
  is_Some (event_data !! "event_type") →
  let item := created_event env event_data user_id (clock s.1) in
  (∃ rest, calls (ApiHandler.create_event env event_data s).2.1
           = calls s.1 ++ PutItem item :: rest)
  ∧ (put_item env item = inr () →
     (ApiHandler.create_event env event_data s).1
     = inr (ApiHandler.Response 200
              (ApiHandler.EventCreated
                 (VStr (py_str user_id +:+ "_" +:+ pretty
                    (unix_seconds (datetime_now env (S (clock s.1)))))))))
  ∧ (∀ e, put_item env item = inl e →
     (ApiHandler.create_event env event_data s).1
     = inr (ApiHandler.Response 500
              (ApiHandler.Error ("Failed to store event: " +:+ e)))).
Proof.
  intros Huid [ty Hty]. destruct s as [w []]. cbn [fst].
  set (item := created_event env event_data user_id (clock w)).
  unfold ApiHandler.create_event, ApiHandler.first_missing, ApiHandler.required_fields.
  rewrite (decide_False (P := event_data !! "user_id" = None)) by (by rewrite Huid).
  rewrite (decide_False (P := event_data !! "event_type" = None)) by (by rewrite Hty).
  unfold try_except, now, get_world, modify_world, getitem.
  repeat (unfold mbind, M_bind, bind, mret, M_ret, ret;
          cbn -[lookup insert store_event pretty String.append]).
  rewrite lookup_insert_ne by done. rewrite Huid.
  repeat (unfold mbind, M_bind, bind, mret, M_ret, ret;
          cbn -[lookup insert store_event pretty String.append]).
  rewrite (lookup_insert_eq _ "event_id").
  fold (created_event env event_data user_id (clock w)). fold item.
  pose proof (store_event_sends_put_item env item
                (World (S (S (clock w))) (stdout w) (calls w), ())) as [rest Hc].
  split_and!.
  - exists rest. revert Hc.
    by destruct (store_event env item _) as [[?|?] [? ?]].
  - intros Hput.
    pose proof (store_event_returns env item _
                  (World (S (S (clock w))) (stdout w) (calls w), ()) Hput
                  (lookup_insert_eq _ "event_id" _)) as Hr.
    revert Hr. by destruct (store_event env item _) as [[?|?] [? ?]].
  - intros e Hput.
    pose proof (store_event_put_failure env item e
                  (World (S (S (clock w))) (stdout w) (calls w), ()) Hput) as Hr.
    revert Hr. destruct (store_event env item _) as [[?|?] [? ?]]; simpl; [|done].
    by intros [= ->].
Qed.
End metadata.

Import Scenarios.

(** ** The statements above at concrete backends and inputs *)

Lemma store_event_ignores_archival_failure_witness :
  put_item s3_down stored_click = inr ()
  ∧ stored_click !! "event_id" = Some (VStr "u1_1705314601")
  ∧ (store_event s3_down stored_click start).1
    = inr {| status := "success"; event_id := VStr "u1_1705314601" |}
  ∧ (store_event healthy stored_click start).1
    = inr {| status := "success"; event_id := VStr "u1_1705314601" |}.
Proof.
  split_and!; [reflexivity|vm_compute; reflexivity| |].
  - apply (store_event_ignores_archival_failure s3_down stored_click
             (VStr "u1_1705314601") start);
      [reflexivity|vm_compute; reflexivity].
  - apply (store_event_ignores_archival_failure healthy stored_click
             (VStr "u1_1705314601") start);
      [reflexivity|vm_compute; reflexivity].
Defined.

Example store_event_warns_when_s3_is_down :
  stdout (store_event s3_down stored_click start).2.1
  = ["Warning: Failed to store event to S3: AccessDenied"].
Proof. vm_compute. reflexivity. Qed.

Lemma get_analytics_returns_items_unchanged_witness :
  query_aggregations aggregated "page_views" "2024-01-09" "2024-01-15"
  = inr (Some daily_page_views)
  ∧ (get_analytics aggregated "page_views" "2024-01-09" "2024-01-15" "week"
       start).1 = inr daily_page_views.
Proof.
  split; [reflexivity|].
  apply (get_analytics_returns_items_unchanged aggregated
           "page_views" "2024-01-09" "2024-01-15" "week" daily_page_views start).
  reflexivity.
Defined.

Lemma stored_click_not_empty : stored_click ≠ ∅.
Proof.
  intros H. apply (f_equal (λ m : dict, m !! "user_id")) in H.
  vm_compute in H. discriminate H.
Defined.

Lemma get_event_absent_is_404_witness :
  (ApiHandler.get_event (holding None) "nonexistent" start).1
  = inr (ApiHandler.Response 404 (ApiHandler.Error "Event not found"))
  ∧ (ApiHandler.get_event (holding (Some stored_click)) "u1_1705314601" start).1
    = inr (ApiHandler.Response 200 (ApiHandler.Event stored_click)).
Proof.
  split.
  - apply (proj1 (get_event_absent_is_404 (holding None) "nonexistent" start)).
    reflexivity.
  - apply (proj2 (proj2 (get_event_absent_is_404 (holding (Some stored_click))
                           "u1_1705314601" start)) stored_click);
      [reflexivity|apply stored_click_not_empty].
Defined.


Lemma running_is_pending k final rows j :
  j < k → pending (with_query k final rows) "q-1" j.
Proof.
  intros Hj. eexists. split.
  - simpl. rewrite decide_True by done. reflexivity.
  - simpl. rewrite !elem_of_cons, elem_of_nil. intros [?|[?|[?|[]]]]; done.
Defined.

Lemma execute_query_succeeded_witness :
  (execute_athena_query (with_query 3 succeeded_status two_rows)
     (VStr "SELECT * FROM events") start).1
  = inr {| query_execution_id := "q-1"; query_status_text := "success";
           results := [ {[ "user_id" := "u1"; "n" := "3" ]};
                        {[ "user_id" := "u2"; "n" := "" ]} ] |}.
Proof.
  pose proof (execute_query_succeeded (with_query 3 succeeded_status two_rows)
                (VStr "SELECT * FROM events") "q-1" 3 None two_rows start
                eq_refl) as H.
  destruct H as (_ & _ & _ & H).
  - unfold max_attempts. lia.
  - intros j Hj. by apply running_is_pending.
  - reflexivity.
  - reflexivity.
  - rewrite (H ["user_id"; "n"] [[Some "u1"; Some "3"]; [Some "u2"; None]]).
    + vm_compute. reflexivity.
    + reflexivity.
    + repeat constructor.
Defined.

Lemma execute_query_failed_witness :
  (ApiHandler.execute_query (with_query 2 failed_status []) select_all start).1
  = inr (ApiHandler.Response 500
           (ApiHandler.Error
              "Failed to execute Athena query: Query failed: syntax error")).
Proof.
  pose proof (execute_query_failed (with_query 2 failed_status [])
                (VStr "SELECT * FROM events") "q-1" 2 "FAILED"
                (Some "syntax error") start eq_refl) as H.
  destruct H as (_ & H & _).
  - unfold max_attempts. lia.
  - intros j Hj. by apply running_is_pending.
  - reflexivity.
  - apply list_elem_of_here.
  - apply (H select_all). vm_compute. reflexivity.
Defined.

Lemma polling_is_bounded_witness :
  execute_athena_query (with_query 30 failed_status [])
    (VStr "SELECT * FROM events") start
  = (inl "Failed to execute Athena query: Query timeout",
     add_calls (StartQueryExecution (VStr "SELECT * FROM events")
                :: polling_trace "q-1" 30) start).
Proof.
  apply (proj2 (polling_is_bounded (with_query 30 failed_status [])
                  (VStr "SELECT * FROM events") start) "q-1").
  - reflexivity.
  - intros j Hj. by apply running_is_pending.
Defined.


Lemma failed_chunk_keeps_successful_witness :
  let st := batch_start [click "u1"] start in
  let batch := chunk_positions (length (l_events st.2)) 0 in
  (store_chunk_try flush_fails 0 batch st).1
  = inl "ProvisionedThroughputExceededException"
  ∧ l_failed (store_chunk flush_fails 0 st).2.2
    = l_failed st.2
      ++ ((λ p, (p, "ProvisionedThroughputExceededException")) <$> batch).
Proof.
  intros st batch. split; [vm_compute; reflexivity|].
  destruct failed_chunk_keeps_successful as [H _].
  destruct (H flush_fails 0 st) as (_ & _ & Hf).
  apply Hf. vm_compute. reflexivity.
Defined.

(** The thirty events of the spec's example, the second chunk failing. *)
Example thirty_events_second_chunk_fails :
  ∃ res s',
    store_events_batch second_chunk_fails thirty_clicks start = (inr res, s')
    ∧ count_calls is_enter (calls s'.1) = 2
    ∧ length (successful res) = 30
    ∧ (λ x, x.2) <$> failed res
      = replicate 5 "ProvisionedThroughputExceededException"
    ∧ Forall (λ x : dict * exn,
                ∃ eid, x.1 !! "event_id" = Some eid ∧ eid ∈ successful res)
             (failed res).
Proof.
  assert (Hcheck :
    (λ r : (exn + batch_result) * (world * unit),
       match r.1 with
       | inr res =>
           bool_decide (count_calls is_enter (calls r.2.1) = 2)
           && bool_decide (length (successful res) = 30)
           && bool_decide ((λ x, x.2) <$> failed res
                           = replicate 5 "ProvisionedThroughputExceededException")
           && forallb (λ x : dict * exn,
                         match x.1 !! "event_id" with
                         | Some eid => bool_decide (eid ∈ successful res)
                         | None => false
                         end) (failed res)
       | inl _ => false
       end) (store_events_batch second_chunk_fails thirty_clicks start) = true).
  { vm_compute. reflexivity. }
  destruct (store_events_batch second_chunk_fails thirty_clicks start)
    as [[e|res] s']; [discriminate Hcheck|].
  cbn beta iota delta [fst snd] in Hcheck.
  apply andb_prop in Hcheck as [Hcheck Hall].
  apply andb_prop in Hcheck as [Hcheck Herr].
  apply andb_prop in Hcheck as [Henter Hlen].
  apply bool_decide_eq_true_1 in Henter, Hlen, Herr.
  exists res, s'. split; [reflexivity|]. split_and!; [exact Henter|exact Hlen|exact Herr|].
  apply Forall_forall. intros x Hx.
  apply list_elem_of_In in Hx.
  pose proof (proj1 (forallb_forall _ _) Hall x Hx) as Hone.
  cbn beta in Hone.
  destruct (x.1 !! "event_id") as [eid|]; [|discriminate Hone].
  exists eid. split; [reflexivity|]. by apply bool_decide_eq_true_1 in Hone.
Qed.

(** C3. [create_event] assigns [timestamp] and [event_id] whatever the
    request brought. *)
Example create_event_overwrites_supplied_metadata :
  click_with_metadata !! "event_id" = Some (VStr "custom-1")
  ∧ click_with_metadata !! "timestamp" = Some (VStr "2020-01-01T00:00:00")
  ∧ ∃ item rest,
      ApiHandler.create_event healthy click_with_metadata start
      = (inr (ApiHandler.Response 200
                (ApiHandler.EventCreated (VStr "u1_1705314601"))),
         (World 2 [] (PutItem item :: rest), ()))
      ∧ item !! "event_id" = Some (VStr "u1_1705314601")
      ∧ item !! "timestamp" = Some (VStr "2024-01-15T10:30:00").
Proof.
  split_and!; [vm_compute; reflexivity..|].
  eexists _, _. split_and!; vm_compute; reflexivity.
Qed.

Example store_events_batch_keeps_supplied_metadata :
  ∃ res s' rest,
    store_events_batch healthy [click_with_metadata] start = (inr res, s')
    ∧ calls s'.1
      = BatchWriterEnter :: BatchWriterPutItem click_with_metadata :: rest
    ∧ successful res = [VStr "custom-1"].
Proof. eexists _, _, _. split_and!; vm_compute; reflexivity. Qed.

(** * Further properties of the code *)
Import Vocabulary.

(** ** Event storage: failures and what the archival write touches *)
Section storage_edges.
Context {L : Type}.
Variable env : backend.

(** X1. When the put raises, [store_event] raises its message wrapped and
    stops there: the put is the only request sent, nothing reaches S3 and
    nothing is printed. *)
Theorem store_event_put_failure_stops (event_data : dict) (e : exn)
    (s : world * L) :
  put_item env event_data = inl e →
  store_event env event_data s
  = (inl ("Failed to store event: " +:+ e), add_calls [PutItem event_data] s).
Proof.
  intros Hput. destruct s as [w l]. unfold store_event, add_calls. eff.
  by rewrite Hput.
Qed.

Lemma _store_event_to_s3_effects (event_data : dict) (s : world * L) :
  ∃ tr out,
    _store_event_to_s3 env event_data s
    = (inr (), (World (clock s.1) (stdout s.1 ++ out) (calls s.1 ++ tr), s.2))
    ∧ length tr ≤ 1
    ∧ length out ≤ 1
    ∧ (∀ c, c ∈ tr → ∃ key body, c = S3PutObject bucket_name key body)
    ∧ (tr = [] → length out = 1).
Proof.
  destruct s as [w l].
  unfold _store_event_to_s3, _store_event_to_s3_try. eff.
  assert (Hnone : ∀ c : call, c ∈ [] → ∃ key body, c = S3PutObject bucket_name key body).
  { intros c Hc. by apply elem_of_nil in Hc. }
  assert (Hone : ∀ k b (c : call), c ∈ [S3PutObject bucket_name k b] →
                 ∃ key body, c = S3PutObject bucket_name key body).
  { intros k b c Hc. apply list_elem_of_singleton in Hc. eauto. }
  destruct (event_data !! "timestamp"); simpl.
  2:{ eexists [], [_]. rewrite app_nil_r. split_and!; simpl; eauto. }
  destruct (fromisoformat env _); simpl.
  { eexists [], [_]. rewrite app_nil_r. split_and!; simpl; eauto. }
  destruct (event_data !! "event_id"); simpl.
  2:{ eexists [], [_]. rewrite app_nil_r. split_and!; simpl; eauto. }
  destruct (json_dumps env _); simpl.
  { eexists [], [_]. rewrite app_nil_r. split_and!; simpl; eauto. }
  destruct (put_object env _ _ _) as [?|[]]; simpl.
  - eexists [_], [_]. split_and!; simpl; eauto; done.
  - eexists [_], []. rewrite app_nil_r. split_and!; simpl; eauto; done.
Qed.

(** X2. [_store_event_to_s3] never raises and keeps to itself: it leaves
    the clock and the caller's locals alone, sends at most one request,
    which is a put to the data-lake bucket, prints at most one line, and
    does one of the two. *)
Theorem archival_write_is_contained (event_data : dict) (s : world * L) :
  ∃ tr out,
    _store_event_to_s3 env event_data s
    = (inr (), (World (clock s.1) (stdout s.1 ++ out) (calls s.1 ++ tr), s.2))
    ∧ length tr ≤ 1
    ∧ length out ≤ 1
    ∧ Forall (λ c, ∃ key body, c = S3PutObject bucket_name key body) tr
    ∧ 1 ≤ length tr + length out.
Proof.
  destruct (_store_event_to_s3_effects event_data s)
    as (tr & out & Hrun & Htr & Hout & Hs3 & Hwarn).
  exists tr, out. split_and!; try done.
  - by apply Forall_forall.
  - destruct tr; simpl; [|lia]. by rewrite Hwarn.
Qed.

(** X3. An event without [event_id] is put in the point store and then
    makes [store_event] raise [KeyError('event_id')], wrapped: the put is
    not undone, and the archival write has printed its warning. *)
Theorem store_event_without_event_id (event_data : dict) (s : world * L) :
  event_data !! "event_id" = None →
  put_item env event_data = inr () →
  ∃ line,
    store_event env event_data s
    = (inl "Failed to store event: 'event_id'",
       (World (clock s.1) (stdout s.1 ++ [line])
              (calls s.1 ++ [PutItem event_data]), s.2)).
Proof.
  intros Hid Hput. destruct s as [w l].
  unfold store_event, _store_event_to_s3, _store_event_to_s3_try. eff.
  rewrite Hput. simpl. rewrite Hid.
  destruct (event_data !! "timestamp"); simpl; [|by eexists].
  destruct (fromisoformat env _); simpl; by eexists.
Qed.
End storage_edges.


(** ** Reads and validation: edge cases *)
Section read_edges.
Variable env : backend.

(** X4. [get_analytics] never looks at [group_by] beyond choosing among
    branches that all return the items: any two values give the same
    outcome and the same request. The items default to the empty list when
    the response has none, and a failing query raises its message
    wrapped. *)
Theorem get_analytics_ignores_group_by {L} (metric start_date end_date : string)
    (group_by group_by' : string) (s : world * L) :
  get_analytics env metric start_date end_date group_by s
  = get_analytics env metric start_date end_date group_by' s
  ∧ get_analytics env metric start_date end_date group_by s
    = (match query_aggregations env metric start_date end_date with
       | inl e => inl ("Failed to get analytics: " +:+ e)
       | inr items => inr (default [] items)
       end,
       add_calls [QueryAggregations metric start_date end_date] s).
Proof.
  assert (H : ∀ g, get_analytics env metric start_date end_date g s
    = (match query_aggregations env metric start_date end_date with
       | inl e => inl ("Failed to get analytics: " +:+ e)
       | inr items => inr (default [] items)
       end,
       add_calls [QueryAggregations metric start_date end_date] s)).
  { intros g. destruct s as [w l]. unfold get_analytics, add_calls. eff.
    destruct (query_aggregations env _ _ _); simpl; [done|].
    repeat case_decide; done. }
  split; [by rewrite !H|apply H].
Qed.

(** X5. The route tests [not event]: an item that is an empty mapping is
    answered 404 like an absent one, although the service returned it. *)
Theorem get_event_empty_item_is_404 (event_id : string) (s : world * unit) :
  get_item env event_id = inr (Some ∅) →
  (AnalyticsService.get_event env event_id s).1 = inr (Some ∅)
  ∧ (ApiHandler.get_event env event_id s).1
    = inr (ApiHandler.Response 404 (ApiHandler.Error "Event not found")).
Proof.
  intros H. destruct s as [w l].
  unfold ApiHandler.get_event, get_event. eff. by rewrite H.
Qed.

End read_edges.


(** ** SQL queries: failures of the backend *)
Section query_failures.
Variable env : backend.

(** X7. When Athena refuses to start the query, the service raises the
    message wrapped without polling, and the route answers 500. *)
Theorem execute_query_start_failure (sql : value) (e : exn)
    (s : world * unit) :
  start_query_execution env sql = inl e →
  execute_athena_query env sql s
  = (inl ("Failed to execute Athena query: " +:+ e),
     add_calls [StartQueryExecution sql] s)
  ∧ ∀ query_data : dict, query_data !! "sql" = Some sql →
      ApiHandler.execute_query env query_data s
      = (inr (ApiHandler.Response 500
                (ApiHandler.Error ("Failed to execute Athena query: " +:+ e))),
         add_calls [StartQueryExecution sql] s).
Proof.
  intros Hstart.
  assert (Hsvc : execute_athena_query env sql s
    = (inl ("Failed to execute Athena query: " +:+ e),
       add_calls [StartQueryExecution sql] s)).
  { destruct s as [w l]. unfold execute_athena_query, add_calls.
    unfold try_except, mbind, M_bind, bind, send, modify_world, of_result, raise.
    cbn -[poll seq max_attempts]. by rewrite Hstart. }
  split; [done|].
  intros query_data Hsql. unfold ApiHandler.execute_query.
  unfold try_except, mbind, M_bind, bind. rewrite Hsql, Hsvc. done.
Qed.

(** X8. When a poll raises, after [k] polls that found the query pending,
    the service raises the message wrapped and stops polling: [k + 1]
    polls were sent, no results were asked for. *)
Theorem execute_query_poll_failure (sql : value) (qid : string) (k : nat)
    (e : exn) (s : world * unit) :
  start_query_execution env sql = inr qid →
  k < max_attempts →
  (∀ j, j < k → pending env qid j) →
  get_query_execution env qid k = inl e →
  execute_athena_query env sql s
  = (inl ("Failed to execute Athena query: " +:+ e),
     add_calls (StartQueryExecution sql :: polling_trace qid k
                ++ [GetQueryExecution qid]) s).
Proof.
  intros Hstart Hk Hp He.
  rewrite (execute_athena_query_polls env sql qid k) by (done || lia).
  rewrite seq_next by done. simpl. eff. rewrite He. simpl.
  unfold add_calls. simpl. by rewrite <- !app_assoc.
Qed.

Lemma execute_query_after_success (sql : value) (qid : string)
    (k : nat) (reason : option string) (s : world * unit) :
  start_query_execution env sql = inr qid →
  k < max_attempts →
  (∀ j, j < k → pending env qid j) →
  get_query_execution env qid k
    = inr {| State := "SUCCEEDED"; StateChangeReason := reason |} →
  (execute_athena_query env sql s).1
  = match get_query_results env qid 1000 with
    | inl e => inl ("Failed to execute Athena query: " +:+ e)
    | inr rows =>
        match _parse_athena_results rows with
        | inl e => inl ("Failed to execute Athena query: " +:+ e)
        | inr results =>
            inr {| query_execution_id := qid; query_status_text := "success";
                   results := results |}
        end
    end.
Proof.
  intros Hstart Hk Hp Hst.
  rewrite (execute_athena_query_polls env sql qid k) by (done || lia).
  rewrite seq_next by done. simpl. eff. rewrite Hst. simpl.
  destruct (get_query_results env qid 1000); simpl; [done|].
  by destruct (_parse_athena_results _).
Qed.
End query_failures.

(** ** SQL queries: result sets that do not parse *)
Section parse_edges.

Lemma parse_cells_error (columns : list string) : ∀ (r : row) i acc e,
  parse_cells columns i r acc = inl e → e = IndexError.
Proof.
  induction r as [|col rest IH]; intros i acc e; simpl; [done|].
  destruct (columns !! i); [apply IH|by intros [= <-]].
Qed.

Lemma parse_cells_width (columns : list string) : ∀ (r : row) i acc m,
  parse_cells columns i r acc = inr m → r = [] ∨ i + length r ≤ length columns.
Proof.
  induction r as [|col rest IH]; intros i acc m; simpl; [by left|].
  destruct (columns !! i) as [c|] eqn:Hc; [|done].
  intros H. right. apply lookup_lt_Some in Hc.
  destruct (IH _ _ _ H) as [->|?]; simpl; lia.
Qed.

Lemma parse_cells_keys (columns : list string) : ∀ (r : row) i acc m,
  parse_cells columns i r acc = inr m →
  ∀ c, is_Some (m !! c) → is_Some (acc !! c) ∨ c ∈ columns.
Proof.
  induction r as [|col rest IH]; intros i acc m; simpl.
  - intros [= <-] c Hc. by left.
  - destruct (columns !! i) as [c0|] eqn:Hc0; [|done].
    intros H c Hc. destruct (IH _ _ _ H c Hc) as [Hin|?]; [|by right].
    destruct (decide (c0 = c)) as [<-|Hne].
    + right. by eapply list_elem_of_lookup_2.
    + left. by rewrite lookup_insert_ne in Hin.
Qed.

Lemma parse_rows_shape (columns : list string) : ∀ (rows : list row) data res,
  parse_rows columns rows data = inr res →
  Forall (λ r : row, length r ≤ length columns) rows
  ∧ ∃ parsed, res = data ++ parsed ∧ length parsed = length rows
      ∧ Forall (λ m : parsed_row, ∀ c, is_Some (m !! c) → c ∈ columns) parsed.
Proof.
  induction rows as [|r rest IH]; intros data res; simpl.
  - intros [= <-]. split; [done|]. exists []. by rewrite app_nil_r.
  - destruct (parse_cells columns 0 r ∅) as [e|m] eqn:Hm; [done|].
    intros H. destruct (IH _ _ H) as (Hw & parsed & -> & Hlen & Hkeys).
    split.
    + constructor; [|done].
      destruct (parse_cells_width _ _ _ _ _ Hm) as [->|?]; simpl; lia.
    + exists (m :: parsed). rewrite <- app_assoc. split_and!; [done|simpl; lia|].
      constructor; [|done]. intros c Hc.
      destruct (parse_cells_keys _ _ _ _ _ Hm c Hc) as [Hin|?]; [|done].
      rewrite lookup_empty in Hin. by destruct Hin.
Qed.

Lemma header_columns_inv : ∀ (header : row) columns,
  header_columns header = inr columns → header = Some <$> columns.
Proof.
  induction header as [|col rest IH]; intros columns; simpl.
  - by intros [= <-].
  - destruct col as [name|]; [|done].
    destruct (header_columns rest) as [e|names]; [done|].
    intros [= <-]. csimpl. by rewrite (IH names).
Qed.

Lemma header_columns_error : ∀ header : row,
  None ∈ header → header_columns header = inl (KeyError "VarCharValue").
Proof.
  induction header as [|col rest IH]; intros Hin.
  - by apply elem_of_nil in Hin.
  - simpl. destruct col as [name|]; [|done].
    apply elem_of_cons in Hin as [?|Hin]; [done|]. by rewrite IH.
Qed.

(** X10. When [_parse_athena_results] returns, it returns one mapping per
    row after the first, and the keys of every mapping are names of the
    header. *)
Theorem _parse_athena_results_shape (rows : list row) (res : list parsed_row) :
  _parse_athena_results rows = inr res →
  length res = length rows - 1
  ∧ ∀ header, head rows = Some header →
      Forall (λ m : parsed_row,
                ∀ c, is_Some (m !! c) → Some c ∈ header) res.
Proof.
  unfold _parse_athena_results. destruct rows as [|header data_rows].
  - intros [= <-]. split; [done|]. intros header [=].
  - destruct (header_columns header) as [e|columns] eqn:Hh; [done|].
    intros H. destruct (parse_rows_shape _ _ _ _ H) as (_ & parsed & -> & Hlen & Hk).
    simpl. split; [lia|]. intros h [= <-].
    rewrite (header_columns_inv _ _ Hh).
    eapply Forall_impl; [exact Hk|]. intros m Hm c Hc.
    apply list_elem_of_fmap. exists c. split; [done|by apply Hm].
Qed.

Lemma parse_rows_wide (columns : list string) (data_rows : list row) :
  Exists (λ r : row, length columns < length r) data_rows →
  ∀ data, parse_rows columns data_rows data = inl IndexError.
Proof.
  intros Hwide.
  induction Hwide as [r rest Hr|r rest Hrest IH]; intros data; simpl.
  - destruct (parse_cells columns 0 r ∅) as [e|m] eqn:Hm.
    + by rewrite (parse_cells_error _ _ _ _ _ Hm).
    + destruct (parse_cells_width _ _ _ _ _ Hm) as [->|?]; simpl in *; lia.
  - destruct (parse_cells columns 0 r ∅) as [e|m] eqn:Hm.
    + by rewrite (parse_cells_error _ _ _ _ _ Hm).
    + apply IH.
Qed.

(** X11. A data row with more cells than the header makes the whole
    parse raise [IndexError], whatever the other rows are. *)
Theorem _parse_athena_results_wide_row (columns : list string)
    (data_rows : list row) :
  Exists (λ r : row, length columns < length r) data_rows →
  _parse_athena_results ((Some <$> columns) :: data_rows) = inl IndexError.
Proof.
  intros Hwide. unfold _parse_athena_results.
  rewrite header_columns_names. by apply parse_rows_wide.
Qed.

(** X12. A header cell without [VarCharValue] makes the parse raise
    [KeyError('VarCharValue')], whatever the data rows are. *)
Theorem _parse_athena_results_unnamed_column (header : row)
    (data_rows : list row) :
  None ∈ header →
  _parse_athena_results (header :: data_rows) = inl (KeyError "VarCharValue").
Proof.
  intros Hin. unfold _parse_athena_results.
  by rewrite (header_columns_error _ Hin).
Qed.

Lemma spec_row_mapping_missing (columns : list string) (r : row) i c :
  NoDup columns → columns !! i = Some c → r !! i = None →
  spec_row_mapping columns r !! c = None.
Proof.
  intros Hnd Hc Hr. unfold spec_row_mapping.
  apply not_elem_of_list_to_map_1.
  rewrite fmap_reverse, elem_of_reverse, zip_fst_take, length_fmap.
  intros Hin. apply list_elem_of_lookup in Hin as [j Hj].
  apply lookup_take_Some in Hj as [Hj Hlt].
  assert (i = j) by (eapply NoDup_lookup; eauto). subst j.
  apply lookup_ge_None in Hr. lia.
Qed.

(** X13. With distinct header names, the mapping of data row [k] sends
    the name of column [i] to the row's cell [i], a cell without value
    read as the empty string, and has no entry for a column the row is too
    short to reach. *)
Theorem _parse_athena_results_cells (columns : list string)
    (data_rows : list row) (res : list parsed_row) (k : nat) (r : row) :
  NoDup columns →
  _parse_athena_results ((Some <$> columns) :: data_rows) = inr res →
  data_rows !! k = Some r →
  ∃ m, res !! k = Some m
       ∧ ∀ i c, columns !! i = Some c →
           m !! c = default "" <$> (r !! i).
Proof.
  intros Hnd Hres Hr.
  assert (Hw : Forall (λ r : row, length r ≤ length columns) data_rows).
  { revert Hres. unfold _parse_athena_results. rewrite header_columns_names.
    intros H. by destruct (parse_rows_shape _ _ _ _ H). }
  rewrite (_parse_athena_results_rows _ _ Hw) in Hres.
  injection Hres as <-.
  exists (spec_row_mapping columns r). split.
  - by rewrite list_lookup_fmap, Hr.
  - intros i c Hc. destruct (r !! i) as [v|] eqn:Hi; simpl.
    + by eapply spec_row_mapping_lookup.
    + by eapply spec_row_mapping_missing.
Qed.
End parse_edges.

Section malformed_results.
Variable env : backend.

(** X9. A query that SUCCEEDED still fails when its result set has a data
    row wider than the header: the [IndexError] of the parse leaves the
    service wrapped like any other failure, and the route answers 500. *)
Theorem execute_query_malformed_results (sql : value) (qid : string)
    (k : nat) (reason : option string) (columns : list string)
    (data_rows : list row) (s : world * unit) :
  start_query_execution env sql = inr qid →
  k < max_attempts →
  (∀ j, j < k → pending env qid j) →
  get_query_execution env qid k
    = inr {| State := "SUCCEEDED"; StateChangeReason := reason |} →
  get_query_results env qid 1000 = inr ((Some <$> columns) :: data_rows) →
  Exists (λ r : row, length columns < length r) data_rows →
  (execute_athena_query env sql s).1
  = inl "Failed to execute Athena query: list index out of range"
  ∧ ∀ query_data : dict, query_data !! "sql" = Some sql →
      (ApiHandler.execute_query env query_data s).1
      = inr (ApiHandler.Response 500
               (ApiHandler.Error
                  "Failed to execute Athena query: list index out of range")).
Proof.
  intros Hstart Hk Hp Hst Hrows Hwide.
  assert (Hsvc : (execute_athena_query env sql s).1
    = inl "Failed to execute Athena query: list index out of range").
  { rewrite (execute_query_after_success env sql qid k reason s) by done.
    rewrite Hrows. unfold _parse_athena_results.
    by rewrite header_columns_names, (parse_rows_wide columns data_rows Hwide). }
  split; [done|].
  intros query_data Hsql. unfold ApiHandler.execute_query.
  unfold try_except, mbind, M_bind, bind. rewrite Hsql.
  destruct (execute_athena_query env sql s) as [[e|r] s']; simpl in *; [|done].
  by injection Hsvc as ->.
Qed.
End malformed_results.


(** ** Batch storage: when every write succeeds *)
Section batch_success_event.
Variable env : backend.

Lemma written_app tr1 tr2 : written (tr1 ++ tr2) = written tr1 ++ written tr2.
Proof. apply omap_app. Qed.

Lemma written_s3 tr :
  (∀ c, c ∈ tr → ∃ key body, c = S3PutObject bucket_name key body) →
  written tr = [].
Proof.
  induction tr as [|c tr IH]; intros H; [done|].
  destruct (H c) as (key & body & ->); [apply list_elem_of_here|].
  simpl. apply IH. intros c' Hc'. apply H. by apply list_elem_of_further.
Qed.

Lemma store_batch_event_ok p (st : world * batch_locals) event user_id :
  l_events st.2 !! p = Some event →
  event !! "user_id" = Some user_id →
  (∀ item, batch_put_item env p item = inr ()) →
  let event' := with_metadata env (clock st.1) event user_id in
  ∃ id w',
    store_batch_event env p st
    = (inr (), (w', {| l_events := <[p := event']> (l_events st.2);
                       l_successful := l_successful st.2 ++ [id];
                       l_failed := l_failed st.2 |}))
    ∧ event' !! "event_id" = Some id
    ∧ clock w' = S (S (clock st.1))
    ∧ ∃ tr, calls w' = calls st.1 ++ tr ∧ written tr = [event']
            ∧ count_calls is_enter tr = 0.
Proof.
  intros Hp Huid Hput event'. destruct st as [w l]. simpl in Hp.
  assert (Hlt : p < length (l_events l)) by (by eapply lookup_lt_Some).
  set (f1 := (<["timestamp" :=
         default (VStr (isoformat (datetime_now env (clock w))))
                 (event !! "timestamp")]>) : dict → dict).
  assert (Hread1 : l_events l !!! p = event)
    by (by apply list_lookup_total_correct).
  assert (Hread2 : alter f1 p (l_events l) !!! p = f1 event).
  { by rewrite list_lookup_total_alter_eq, Hread1. }
  assert (Huid1 : f1 event !! "user_id" = Some user_id).
  { unfold f1. by rewrite lookup_insert_ne. }
  set (f2 := (<["event_id" :=
         default (VStr (py_str user_id +:+ "_" +:+
                   pretty (unix_seconds (datetime_now env (S (clock w))))))
                 (f1 event !! "event_id")]>) : dict → dict).
  assert (Hev' : event' = f2 (f1 event)) by done.
  assert (Hfinal : alter f2 p (alter f1 p (l_events l)) = <[p := event']> (l_events l)).
  { rewrite list_alter_alter_eq, list_insert_alter.
    apply list_alter_ext; [|done]. intros x Hx. simpl.
    rewrite Hp in Hx. injection Hx as <-. done. }
  assert (Hread3 : alter f2 p (alter f1 p (l_events l)) !!! p = event').
  { rewrite Hfinal. apply list_lookup_total_correct.
    by apply list_lookup_insert_eq. }
  assert (Hid : ∃ id, event' !! "event_id" = Some id).
  { rewrite Hev'. unfold f2. rewrite lookup_insert_eq. eauto. }
  destruct Hid as [id Hid].
  unfold store_batch_event, now, read_event, write_event, append_successful.
  unfold get_world, modify_world, get_locals, modify_locals, getitem, send, of_result.
  repeat (unfold mbind, M_bind, bind, mret, M_ret, ret;
          cbn -[lookup insert alter lookup_total pretty String.append
                _store_event_to_s3]).
  rewrite Hread1. fold f1. rewrite Hread2, Huid1.
  repeat (unfold mbind, M_bind, bind, mret, M_ret, ret;
          cbn -[lookup insert alter lookup_total pretty String.append
                _store_event_to_s3]).
  fold f2. rewrite Hread3, Hput, Hid.
  repeat (unfold mbind, M_bind, bind, mret, M_ret, ret;
          cbn -[lookup insert alter lookup_total pretty String.append
                _store_event_to_s3]).
  match goal with |- context [_store_event_to_s3 env event' ?s] =>
    destruct (_store_event_to_s3_effects env event' s)
      as (tr & out & -> & _ & _ & Hs3 & _) end.
  cbn -[lookup insert alter lookup_total pretty String.append].
  rewrite Hfinal.
  eexists id, _. split_and!; [reflexivity|done|done|].
  eexists. split; [by rewrite <- app_assoc|].
  rewrite written_app, (written_s3 tr Hs3). split; [done|].
  unfold count_calls. rewrite List.filter_app, length_app. simpl.
  clear -Hs3. induction tr as [|c tr IH]; [done|].
  destruct (Hs3 c) as (? & ? & ->); [apply list_elem_of_here|].
  simpl. apply IH. intros c' Hc'. apply Hs3. by apply list_elem_of_further.
Qed.
End batch_success_event.

Section batch_success.
Variable env : backend.
Variable events0 : list dict.
Variable calls0 : list call.
Variable c0 : nat.
Hypothesis Huser : Forall (λ event : dict, is_Some (event !! "user_id")) events0.
Hypothesis Hput : ∀ p item, batch_put_item env p item = inr ().
Hypothesis Hexit : ∀ i, batch_exit env i false = inr ().

Local Abbreviation Inv := (stored env events0 calls0 c0).

Lemma stored_step k st :
  Inv k st → k < length events0 →
  ∃ st', store_batch_event env k st = (inr (), st')
         ∧ stored env events0 calls0 c0 (S k) st'.
Proof.
  intros [Hf Hlen Hrest Hdone Hids Hclock (tr & Hc & Hw)] Hk.
  destruct (lookup_lt_is_Some_2 events0 k Hk) as [event Hev].
  assert (Hcur : l_events st.2 !! k = Some event).
  { rewrite <- (Nat.add_0_r k), <- lookup_drop, Hrest, lookup_drop, Nat.add_0_r.
    done. }
  destruct (proj1 (Forall_lookup _ _) Huser k event Hev) as [user_id Huid].
  destruct (store_batch_event_ok env k st event user_id Hcur Huid (Hput k))
    as (id & w' & Hrun & Hid & Hclock' & tr' & Hc' & Hw' & Hn').
  eexists. split; [exact Hrun|]. rewrite Hclock in *.
  set (event' := with_metadata env (c0 + 2 * k) event user_id) in *.
  split; simpl.
  - done.
  - by rewrite length_insert.
  - rewrite drop_insert_lt by lia.
    replace (S k) with (k + 1) by lia.
    rewrite <- !drop_drop. by rewrite Hrest.
  - intros q ev Hq Hevq. destruct (decide (q = k)) as [->|Hne].
    + rewrite Hev in Hevq. injection Hevq as <-. exists user_id.
      split; [done|]. apply list_lookup_insert_eq. lia.
    + destruct (Hdone q ev) as (u & Hu & Hl); [lia|done|].
      exists u. split; [done|]. by rewrite list_lookup_insert_ne.
  - rewrite (take_S_r _ _ event') by (apply list_lookup_insert_eq; lia).
    rewrite take_insert_ge by lia.
    apply Forall2_app; [done|]. by repeat constructor.
  - lia.
  - exists (tr ++ tr'). rewrite Hc', Hc, app_assoc. split; [done|].
    rewrite written_app, Hw, Hw'.
    rewrite (take_S_r _ _ event') by (apply list_lookup_insert_eq; lia).
    by rewrite take_insert_ge by lia.
Qed.

Lemma stored_for_each m : ∀ a st,
  Inv a st → a + m ≤ length events0 →
  ∃ st', for_each (seq a m) (store_batch_event env) st = (inr (), st')
         ∧ Inv (a + m) st'.
Proof.
  induction m as [|m IH]; intros a st HI Hle; simpl.
  - exists st. by rewrite Nat.add_0_r.
  - destruct (stored_step a st HI) as (st1 & Hrun & HI1); [lia|].
    unfold bind. rewrite Hrun.
    destruct (IH (S a) st1 HI1) as (st2 & Hrun2 & HI2); [lia|].
    exists st2. split; [done|]. by replace (a + S m) with (S a + m) by lia.
Qed.

Lemma stored_add_calls k st tr :
  Inv k st → written tr = [] → Inv k (add_calls tr st).
Proof.
  intros [Hf Hlen Hrest Hdone Hids Hclock (tr0 & Hc & Hw)] Htr.
  split; simpl; try done.
  exists (tr0 ++ tr). rewrite Hc, app_assoc. split; [done|].
  by rewrite written_app, Hw, Htr, app_nil_r.
Qed.

Lemma stored_chunk i st :
  Inv i st → i < length events0 →
  ∃ st', store_chunk env i st = (inr (), st')
         ∧ Inv ((i + batch_size) `min` length events0) st'.
Proof.
  intros HI Hi.
  unfold store_chunk, store_chunk_try, with_batch_writer.
  unfold mbind, M_bind, bind, get_locals, try_except, attempt, send,
    modify_world, of_result.
  cbn [fst snd].
  change (slice (seq 0 (length (l_events st.2))) i (i + batch_size))
    with (chunk_positions (length (l_events st.2)) i).
  rewrite chunk_positions_seq, (stored_length _ _ _ _ _ _ HI).
  pose proof (stored_add_calls i st [BatchWriterEnter] HI eq_refl) as HI1.
  destruct (stored_for_each (batch_size `min` (length events0 - i)) i _ HI1)
    as (st2 & Hrun & HI2); [lia|].
  unfold add_calls in Hrun. rewrite Hrun. cbn [fst snd].
  rewrite Hexit.
  eexists. split; [reflexivity|].
  replace ((i + batch_size) `min` length events0)
    with (i + batch_size `min` (length events0 - i)) by lia.
  apply (stored_add_calls _ st2 [BatchWriterExit] HI2 eq_refl).
Qed.

Lemma stored_chunks : ∀ fuel start k st,
  Inv k st → k = start `min` length events0 →
  length events0 - start ≤ fuel →
  ∃ st', for_each (range_from fuel start (length events0) batch_size)
           (store_chunk env) st = (inr (), st')
         ∧ Inv (length events0) st'.
Proof.
  induction fuel as [|fuel IH]; intros start k st HI -> Hfuel; simpl.
  - exists st. split; [done|].
    by replace (start `min` length events0) with (length events0) in HI by lia.
  - case_decide as Hlt.
    + simpl. replace (start `min` length events0) with start in HI by lia.
      destruct (stored_chunk start st HI Hlt) as (st1 & Hrun & HI1).
      unfold bind. rewrite Hrun.
      apply (IH (start + batch_size) _ st1 HI1); [done|].
      unfold batch_size. lia.
    + exists st. split; [done|].
      by replace (start `min` length events0) with (length events0) in HI by lia.
Qed.
End batch_success.

(** X14. When every event has a [user_id] and the batch writer accepts
    every item and every exit, whatever S3 does: nothing is in [failed];
    the events are handed to the writer once each, in the order of the
    input, each with [timestamp] and [event_id] filled in where it had
    none, from two readings of the clock per event; and [successful] lists
    their [event_id]s in that same order. *)
Theorem store_events_batch_all_stored {L} (env : backend) (events : list dict)
    (s : world * L) :
  Forall (λ event : dict, is_Some (event !! "user_id")) events →
  (∀ p item, batch_put_item env p item = inr ()) →
  (∀ i, batch_exit env i false = inr ()) →
  ∃ res w' finals tr,
    store_events_batch env events s = (inr res, (w', s.2))
    ∧ failed res = []
    ∧ length finals = length events
    ∧ (∀ q event, events !! q = Some event →
         ∃ user_id, event !! "user_id" = Some user_id
           ∧ finals !! q
             = Some (with_metadata env (clock s.1 + 2 * q) event user_id))
    ∧ Forall2 (λ (event : dict) id, event !! "event_id" = Some id)
              finals (successful res)
    ∧ calls w' = calls s.1 ++ tr
    ∧ written tr = finals.
Proof.
  intros Huser Hput Hexit.
  destruct (store_events_batch_run env events s) as [Hrun _].
  assert (H0 : stored env events (calls s.1) (clock s.1) 0 (batch_start events s)).
  { split; simpl.
    - done.
    - done.
    - done.
    - intros q event Hq. lia.
    - constructor.
    - lia.
    - exists []. by rewrite app_nil_r. }
  destruct (stored_chunks env events (calls s.1) (clock s.1) Huser Hput Hexit
              (length events) 0 0 _ H0) as (st' & Hloop & HI); [lia|lia|].
  unfold range3 in Hrun. rewrite Hloop in Hrun. cbn [snd] in Hrun.
  destruct HI as [Hf Hlen Hrest Hdone Hids Hclock (tr & Hc & Hw)].
  rewrite <- Hlen, firstn_all in Hids, Hw.
  eexists _, _, (l_events st'.2), tr. split; [exact Hrun|].
  cbn [failed successful]. split_and!; try done.
  - by rewrite Hf.
  - intros q event Hq. apply Hdone; [|done]. by eapply lookup_lt_Some.
Qed.

(** Filling in the metadata never changes a field the event had. *)
Lemma with_metadata_keeps (env : backend) c (event : dict) user_id :
  event ⊆ with_metadata env c event user_id
  ∧ is_Some (with_metadata env c event user_id !! "timestamp")
  ∧ is_Some (with_metadata env c event user_id !! "event_id").
Proof.
  unfold with_metadata. split_and!.
  - etrans; apply insert_default_subseteq.
  - rewrite lookup_insert_ne, lookup_insert_eq by done. eauto.
  - rewrite lookup_insert_eq. eauto.
Qed.

(** ** Batch storage: events without [user_id] *)
Section missing_user.
Variable env : backend.

Lemma same_users_refl s : same_users s s.
Proof. done. Qed.

Lemma same_users_trans s s' s'' :
  same_users s s' → same_users s' s'' → same_users s s''.
Proof. intros H1 H2 q. by rewrite H2, H1. Qed.

Lemma same_users_locals s s' : s'.2 = s.2 → same_users s s'.
Proof. intros H q. unfold user_id_at. by rewrite H. Qed.

Lemma same_users_bind {A B} (m : M batch_locals A) (k : A → M batch_locals B) s :
  same_users s (m s).2 →
  (∀ a s1, m s = (inr a, s1) → same_users s1 (k a s1).2) →
  same_users s ((m ≫= k) s).2.
Proof.
  intros Hm Hk. unfold mbind, M_bind, bind.
  destruct (m s) as [[e|a] s1] eqn:E; [done|].
  eapply same_users_trans; [exact Hm|]. by apply Hk.
Qed.

Lemma write_event_same_users p k v s :
  k ≠ "user_id" → same_users s (write_event p k v s).2.
Proof.
  intros Hk q. destruct s as [w l]. unfold user_id_at, write_event. eff.
  destruct (decide (p = q)) as [->|Hne].
  - rewrite list_lookup_alter_eq. destruct (l_events l !! q); simpl; [|done].
    by rewrite lookup_insert_ne.
  - by rewrite list_lookup_alter_ne.
Qed.

Lemma store_batch_event_same_users p s :
  same_users s (store_batch_event env p s).2.
Proof.
  unfold store_batch_event.
  apply same_users_bind.
  { apply same_users_locals. by destruct s. } intros d s1 _.
  apply same_users_bind; [apply same_users_refl|]. intros event s2 _.
  apply same_users_bind; [by apply write_event_same_users|]. intros _ s3 _.
  apply same_users_bind; [apply same_users_refl|]. intros event' s4 _.
  apply same_users_bind.
  { unfold getitem. destruct (_ !! "user_id"); apply same_users_refl. }
  intros user_id s5 _.
  apply same_users_bind.
  { apply same_users_locals. by destruct s5. } intros d' s6 _.
  apply same_users_bind; [by apply write_event_same_users|]. intros _ s8 _.
  apply same_users_bind; [apply same_users_refl|]. intros ev s9 _.
  apply same_users_bind. { apply same_users_locals. by destruct s9. }
  intros _ s10 _.
  apply same_users_bind; [apply same_users_refl|]. intros _ s11 _.
  apply same_users_bind.
  { unfold getitem. destruct (_ !! "event_id"); apply same_users_refl. }
  intros eid s12 _.
  apply same_users_bind.
  { intros q. by destruct s12. }
  intros _ s13 _. apply same_users_locals.
  destruct (_store_event_to_s3_effects env ev s13) as (tr & out & -> & _).
  done.
Qed.

Lemma store_batch_event_without_user_id p (s : world * batch_locals) :
  p < length (l_events s.2) →
  user_id_at s p = None →
  (store_batch_event env p s).1 = inl (KeyError "user_id")
  ∧ calls (store_batch_event env p s).2.1 = calls s.1
  ∧ l_successful (store_batch_event env p s).2.2 = l_successful s.2.
Proof.
  intros Hlt Hnone. destruct s as [w l]. unfold user_id_at in Hnone.
  simpl in *. destruct (lookup_lt_is_Some_2 _ _ Hlt) as [event Hev].
  rewrite Hev in Hnone. simpl in Hnone.
  unfold store_batch_event, now, read_event, write_event.
  unfold get_world, modify_world, get_locals, modify_locals, getitem.
  repeat (unfold mbind, M_bind, bind, mret, M_ret, ret;
          cbn -[lookup insert alter lookup_total pretty String.append
                _store_event_to_s3]).
  rewrite list_lookup_total_alter_eq by done.
  rewrite (list_lookup_total_correct _ _ _ Hev).
  rewrite lookup_insert_ne by done. rewrite Hnone. done.
Qed.

Lemma for_each_without_user_id : ∀ (l : list nat) (s : world * batch_locals) p,
  p ∈ l → p < length (l_events s.2) → user_id_at s p = None →
  ∃ e, (for_each l (store_batch_event env) s).1 = inl e.
Proof.
  induction l as [|x l IH]; intros s p Hin Hlt Hnone.
  - by apply elem_of_nil in Hin.
  - simpl. unfold bind.
    destruct (store_batch_event env x s) as [[e|[]] s1] eqn:Hrun; [by eexists|].
    apply elem_of_cons in Hin as [->|Hin].
    + destruct (store_batch_event_without_user_id x s Hlt Hnone) as (Hr & _).
      rewrite Hrun in Hr. done.
    + pose proof (store_batch_event_same_users x s p) as Hsame.
      pose proof (store_batch_event_steps env x s) as [He _ _ _].
      rewrite Hrun in Hsame, He. simpl in *.
      apply (IH s1 p Hin).
      * by rewrite <- (Forall2_length _ _ _ He).
      * by rewrite Hsame.
Qed.

Lemma store_chunk_same_users i st : same_users st (store_chunk env i st).2.
Proof.
  assert (Htry : ∀ batch, same_users st (store_chunk_try env i batch st).2).
  { intros batch. unfold store_chunk_try, with_batch_writer.
    apply same_users_bind. { apply same_users_locals. by destruct st. }
    intros _ s1 _. apply same_users_bind.
    { unfold attempt.
      assert (H : ∀ l s, same_users s (for_each l (store_batch_event env) s).2).
      { induction l as [|x l IH]; intros s; [done|]. simpl.
        apply (same_users_bind (store_batch_event env x)
                 (λ _, for_each l (store_batch_event env)));
          [apply store_batch_event_same_users|]. intros _ s2 _. apply IH. }
      specialize (H batch s1). by destruct (for_each _ _ _). }
    intros r s2 _. apply same_users_bind.
    { apply same_users_locals. by destruct s2. }
    intros _ s3 _. destruct r as [e|[]].
    - apply same_users_bind; [apply same_users_refl|]. intros. done.
    - done. }
  destruct (store_chunk_outcome env i st) as (_ & _ & _).
  unfold store_chunk.
  unfold mbind, M_bind, bind, get_locals, try_except. cbn [fst snd].
  set (batch := slice _ _ _).
  specialize (Htry batch).
  destruct (store_chunk_try env i batch st) as [[e|[]] [w1 l1]]; [|done].
  rewrite for_each_append_failed. done.
Qed.

Lemma chunk_with_missing_user_id_fails i (st : world * batch_locals) p :
  let batch := chunk_positions (length (l_events st.2)) i in
  p ∈ batch →
  user_id_at st p = None →
  ∃ e, (store_chunk_try env i batch st).1 = inl e
       ∧ l_failed (store_chunk env i st).2.2
         = l_failed st.2 ++ ((λ q, (q, e)) <$> batch).
Proof.
  intros batch Hin Hnone.
  assert (Hlt : p < length (l_events st.2)).
  { unfold batch in Hin. rewrite chunk_positions_seq in Hin.
    apply elem_of_seq in Hin. lia. }
  assert (Htry : ∃ e, (store_chunk_try env i batch st).1 = inl e).
  { unfold store_chunk_try, with_batch_writer.
    unfold mbind, M_bind, bind, send, modify_world, attempt, of_result, raise.
    cbn [fst snd].
    destruct (for_each_without_user_id batch
                (World (clock st.1) (stdout st.1) (calls st.1 ++ [BatchWriterEnter]),
                 st.2) p Hin Hlt Hnone) as [e He].
    destruct (for_each batch _ _) as [r s2]. simpl in He. subst r. simpl.
    destruct (batch_exit env i true) as [e'|[]]; eauto. }
  destruct Htry as [e He]. exists e. split; [done|].
  destruct (store_chunk_outcome env i st) as (_ & [_ Hf _ _] & _).
  rewrite Hf. fold batch. by rewrite He.
Qed.

(** X15. An event without [user_id] is not handed to the writer, whether
    or not it brings an [event_id]: the default of
    [event.get("event_id", ..)] is evaluated first and reads
    [event['user_id']], so the loop body raises [KeyError('user_id')]
    before [writer.put_item], with nothing sent, nothing added to
    [successful] or [failed] by the body, and the event still without
    [user_id]. *)
Theorem batch_event_without_user_id_is_not_written p
    (s : world * batch_locals) :
  p < length (l_events s.2) →
  user_id_at s p = None →
  (store_batch_event env p s).1 = inl (KeyError "user_id")
  ∧ calls (store_batch_event env p s).2.1 = calls s.1
  ∧ l_successful (store_batch_event env p s).2.2 = l_successful s.2
  ∧ l_failed (store_batch_event env p s).2.2 = l_failed s.2
  ∧ user_id_at (store_batch_event env p s).2 p = None.
Proof.
  intros Hlt Hnone.
  destruct (store_batch_event_without_user_id p s Hlt Hnone) as (Hr & Hc & Hs).
  destruct (store_batch_event_steps env p s) as [_ Hf _ _].
  split_and!; [done..| |].
  - by rewrite Hf, app_nil_r.
  - by rewrite (store_batch_event_same_users p s p).
Qed.
End missing_user.

Section missing_user_batch.
Variable env : backend.

Lemma range_from_multiples n : ∀ fuel start t,
  n - start ≤ fuel → start + batch_size * t < n →
  start + batch_size * t ∈ range_from fuel start n batch_size.
Proof.
  induction fuel as [|fuel IH]; intros start t Hfuel Hlt; [lia|].
  cbn [range_from]. rewrite decide_True by lia.
  destruct t as [|t].
  - replace (start + batch_size * 0) with start by lia. apply list_elem_of_here.
  - apply list_elem_of_further.
    replace (start + batch_size * S t) with (start + batch_size + batch_size * t)
      by lia.
    apply IH; unfold batch_size in *; lia.
Qed.

Lemma same_chunk_positions n p q :
  q < n → q / batch_size = p / batch_size →
  q ∈ chunk_positions n (batch_size * (p / batch_size)).
Proof.
  intros Hq Hdiv. rewrite chunk_positions_seq. apply elem_of_seq.
  assert (batch_size ≠ 0) by done.
  pose proof (Nat.Div0.mul_div_le q batch_size).
  pose proof (Nat.mul_succ_div_gt q batch_size).
  rewrite <- Hdiv. lia.
Qed.

Lemma failed_chunk_of_missing_user n p : ∀ (chunks : list nat) st i q,
  i ∈ chunks →
  length (l_events st.2) = n →
  p ∈ chunk_positions n i →
  user_id_at st p = None →
  q ∈ chunk_positions n i →
  ∃ e, (q, e) ∈ concat (zip_with (λ i o, failed_block o (chunk_positions n i))
                          chunks (chunk_outcomes env chunks st)).
Proof.
  induction chunks as [|c chunks IH]; intros st i q Hi Hlen Hp Hnone Hq.
  - by apply elem_of_nil in Hi.
  - simpl. apply elem_of_cons in Hi as [->|Hi].
    + rewrite Hlen.
      destruct (chunk_with_missing_user_id_fails env c st p) as (e & He & _).
      { by rewrite Hlen. } { done. }
      rewrite Hlen in He. rewrite He. exists e. apply elem_of_app. left.
      simpl. apply list_elem_of_fmap. by exists q.
    + destruct (store_chunk_outcome env c st) as (_ & [He _ _ _] & _).
      destruct (IH (store_chunk env c st).2 i q) as [e Hin]; try done.
      * by rewrite <- (Forall2_length _ _ _ He).
      * by rewrite (store_chunk_same_users env c st p).
      * exists e. apply elem_of_app. by right.
Qed.

(** X16. Whatever the backends do, an event without [user_id] takes its
    whole chunk with it: every event of the input whose position is in the
    same run of 25 is reported in [failed]. *)
Theorem events_without_user_id_are_failed {L} (events : list dict)
    (s : world * L) (p : nat) (event : dict) :
  events !! p = Some event →
  event !! "user_id" = None →
  ∃ res s',
    store_events_batch env events s = (inr res, s')
    ∧ ∀ q event_q, events !! q = Some event_q → q / 25 = p / 25 →
        ∃ e event', (event', e) ∈ failed res ∧ event_q ⊆ event'.
Proof.
  intros Hp Hnone.
  destruct (store_events_batch_run env events s) as [Hrun [He Hf _ _]].
  eexists _, _. split; [exact Hrun|].
  intros q event_q Hq Hdiv. cbn [failed].
  set (final := (for_each _ _ _).2) in *.
  set (i := batch_size * (p / batch_size)).
  assert (Hpn : p < length events) by (by eapply lookup_lt_Some).
  assert (Hqn : q < length events) by (by eapply lookup_lt_Some).
  destruct (failed_chunk_of_missing_user (length events) p
              (range3 0 (length events) batch_size) (batch_start events s) i q)
    as [e Hin].
  - unfold range3, i.
    apply (range_from_multiples (length events) (length events) 0 (p / batch_size));
      [lia|].
    pose proof (Nat.Div0.mul_div_le p batch_size). unfold batch_size in *. lia.
  - done.
  - by apply same_chunk_positions.
  - unfold user_id_at. simpl. by rewrite Hp.
  - by apply same_chunk_positions.
  - simpl in Hf. rewrite <- Hf in Hin.
    destruct (Forall2_lookup_l _ _ _ _ _ He Hq) as (event' & Hev' & Hsub).
    exists e, event'. split; [|done].
    apply list_elem_of_fmap. exists (q, e). split; [|done].
    unfold resolve. simpl. by rewrite (list_lookup_total_correct _ _ _ Hev').
Qed.
End missing_user_batch.

(** ** The events of a user *)
Section user_events.
Variable query : UserEventsService.index_query → exn + option (list dict).
Variable int : string → exn + Z.


End user_events.

(** ** The routes as a whole *)
Section routes.
Variable env : backend.





End routes.

(** ** The further properties at concrete backends and inputs *)
Import MoreScenarios.

Lemma store_event_put_failure_stops_witness :
  store_event put_fails stored_click start
  = (inl "Failed to store event: ProvisionedThroughputExceededException",
     add_calls [PutItem stored_click] start).
Proof.
  apply (store_event_put_failure_stops put_fails stored_click
           "ProvisionedThroughputExceededException" start).
  reflexivity.
Defined.

Lemma store_event_without_event_id_witness :
  ∃ line,
    store_event healthy (click "u1") start
    = (inl "Failed to store event: 'event_id'",
       (World 0 ([] ++ [line]) ([] ++ [PutItem (click "u1")]), ())).
Proof.
  apply (store_event_without_event_id healthy (click "u1") start);
    [vm_compute; reflexivity|reflexivity].
Defined.

Lemma get_event_empty_item_is_404_witness :
  (ApiHandler.get_event (holding (Some ∅)) "e-1" start).1
  = inr (ApiHandler.Response 404 (ApiHandler.Error "Event not found")).
Proof.
  apply (proj2 (get_event_empty_item_is_404 (holding (Some ∅)) "e-1" start
                  eq_refl)).
Defined.


Lemma execute_query_start_failure_witness :
  execute_athena_query athena_down (VStr "SELECT 1") start
  = (inl "Failed to execute Athena query: AccessDeniedException",
     add_calls [StartQueryExecution (VStr "SELECT 1")] start).
Proof.
  apply (proj1 (execute_query_start_failure athena_down (VStr "SELECT 1")
                  "AccessDeniedException" start eq_refl)).
Defined.

Lemma running_then_pending j : j < 2 → pending poll_throttled "q-1" j.
Proof.
  intros Hj. eexists. split.
  - simpl. rewrite decide_True by done. reflexivity.
  - simpl. rewrite !elem_of_cons, elem_of_nil. intros [?|[?|[?|[]]]]; done.
Defined.

Lemma execute_query_poll_failure_witness :
  execute_athena_query poll_throttled (VStr "SELECT 1") start
  = (inl "Failed to execute Athena query: ThrottlingException",
     add_calls (StartQueryExecution (VStr "SELECT 1") :: polling_trace "q-1" 2
                ++ [GetQueryExecution "q-1"]) start).
Proof.
  apply (execute_query_poll_failure poll_throttled (VStr "SELECT 1") "q-1" 2
           "ThrottlingException" start).
  - reflexivity.
  - unfold max_attempts. lia.
  - apply running_then_pending.
  - reflexivity.
Defined.

Lemma execute_query_malformed_results_witness :
  (ApiHandler.execute_query (answering wide_rows) select_all start).1
  = inr (ApiHandler.Response 500
           (ApiHandler.Error
              "Failed to execute Athena query: list index out of range")).
Proof.
  refine (proj2 (execute_query_malformed_results (answering wide_rows)
                   (VStr "SELECT * FROM events") "q-1" 0 None ["user_id"]
                   [[Some "u1"; Some "3"]] start eq_refl _ _ eq_refl eq_refl _)
            select_all _).
  - unfold max_attempts. lia.
  - intros j Hj. lia.
  - apply Exists_cons_hd. simpl. lia.
  - vm_compute. reflexivity.
Defined.

Lemma two_rows_parsed : _parse_athena_results two_rows = inr parsed_two_rows.
Proof. vm_compute. reflexivity. Defined.

Lemma _parse_athena_results_shape_witness :
  _parse_athena_results two_rows = inr parsed_two_rows
  ∧ length parsed_two_rows = length two_rows - 1
  ∧ Forall (λ m : parsed_row,
              ∀ c, is_Some (m !! c) → Some c ∈ [Some "user_id"; Some "n"])
           parsed_two_rows.
Proof.
  split; [exact two_rows_parsed|].
  destruct (_parse_athena_results_shape two_rows parsed_two_rows two_rows_parsed)
    as [Hlen Hkeys].
  split; [exact Hlen|].
  exact (Hkeys [Some "user_id"; Some "n"] eq_refl).
Defined.

Lemma _parse_athena_results_wide_row_witness :
  _parse_athena_results wide_rows = inl IndexError.
Proof.
  apply (_parse_athena_results_wide_row ["user_id"] [[Some "u1"; Some "3"]]).
  apply Exists_cons_hd. simpl. lia.
Defined.

Lemma _parse_athena_results_unnamed_column_witness :
  _parse_athena_results unnamed_header = inl (KeyError "VarCharValue").
Proof.
  apply (_parse_athena_results_unnamed_column [Some "user_id"; None]
           [[Some "u1"; Some "3"]]).
  apply list_elem_of_further, list_elem_of_here.
Defined.

Lemma two_columns_distinct : NoDup ["user_id"; "n"].
Proof.
  apply NoDup_cons. split.
  - rewrite list_elem_of_singleton. discriminate.
  - apply NoDup_singleton.
Defined.

Lemma _parse_athena_results_cells_witness :
  ∃ m, parsed_two_rows !! 1 = Some m
    ∧ m !! "user_id" = Some "u2"
    ∧ m !! "n" = Some "".
Proof.
  destruct (_parse_athena_results_cells ["user_id"; "n"]
              [[Some "u1"; Some "3"]; [Some "u2"; None]] parsed_two_rows 1
              [Some "u2"; None] two_columns_distinct two_rows_parsed eq_refl)
    as (m & Hm & Hcells).
  exists m. split; [exact Hm|]. split.
  - exact (Hcells 0 "user_id" eq_refl).
  - exact (Hcells 1 "n" eq_refl).
Defined.

Lemma store_events_batch_all_stored_witness :
  ∃ res w' finals tr,
    store_events_batch s3_down [click "u1"; click_with_metadata] start
    = (inr res, (w', ()))
    ∧ failed res = []
    ∧ finals !! 1 = Some click_with_metadata
    ∧ Forall2 (λ (event : dict) id, event !! "event_id" = Some id)
              finals (successful res)
    ∧ written tr = finals.
Proof.
  destruct (store_events_batch_all_stored s3_down
              [click "u1"; click_with_metadata] start)
    as (res & w' & finals & tr & Hrun & Hf & Hlen & Hfin & Hids & Hc & Hw).
  - repeat (apply Forall_cons; split; [vm_compute; eauto|]). apply Forall_nil_2.
  - reflexivity.
  - reflexivity.
  - exists res, w', finals, tr.
    split; [exact Hrun|]. split; [exact Hf|]. split; [|split; [exact Hids|exact Hw]].
    destruct (Hfin 1 click_with_metadata eq_refl) as (uid & Huid & ->).
    vm_compute in Huid. injection Huid as <-. vm_compute. reflexivity.
Defined.

Lemma batch_event_without_user_id_is_not_written_witness :
  let s := batch_start [anonymous_click] start in
  anonymous_click !! "event_id" = Some (VStr "custom-2")
  ∧ (store_batch_event healthy 0 s).1 = inl (KeyError "user_id")
  ∧ calls (store_batch_event healthy 0 s).2.1 = calls s.1.
Proof.
  intros s. split; [vm_compute; reflexivity|].
  destruct (batch_event_without_user_id_is_not_written healthy 0 s)
    as (Hr & Hc & _ & _ & _).
  - simpl. lia.
  - vm_compute. reflexivity.
  - split; [exact Hr|exact Hc].
Defined.

Lemma events_without_user_id_are_failed_witness :
  ∃ res s' e event',
    store_events_batch healthy [click "u1"; anonymous_click] start = (inr res, s')
    ∧ (event', e) ∈ failed res
    ∧ click "u1" ⊆ event'.
Proof.
  destruct (events_without_user_id_are_failed healthy
              [click "u1"; anonymous_click] start 1 anonymous_click)
    as (res & s' & Hrun & Hall).
  - reflexivity.
  - vm_compute. reflexivity.
  - destruct (Hall 0 (click "u1")) as (e & event' & Hin & Hsub);
      [reflexivity|reflexivity|].
    exists res, s', e, event'.
    split; [exact Hrun|]. split; [exact Hin|exact Hsub].
Defined.

Lemma create_event_stores_generated_metadata_witness :
  (ApiHandler.create_event healthy click_with_metadata start).1
  = inr (ApiHandler.Response 200 (ApiHandler.EventCreated (VStr "u1_1705314601")))
  ∧ (ApiHandler.create_event put_fails click_with_metadata start).1
    = inr (ApiHandler.Response 500
             (ApiHandler.Error
                "Failed to store event: ProvisionedThroughputExceededException")).
Proof.
  split.
  - refine (eq_trans
              (proj1 (proj2 (create_event_stores_generated_metadata healthy
                               click_with_metadata (VStr "u1") start _ _)) _) _).
    + vm_compute. reflexivity.
    + vm_compute. eauto.
    + reflexivity.
    + vm_compute. reflexivity.
  - refine (proj2 (proj2 (create_event_stores_generated_metadata put_fails
                            click_with_metadata (VStr "u1") start _ _))
              "ProvisionedThroughputExceededException" _).
    + vm_compute. reflexivity.
    + vm_compute. eauto.
    + reflexivity.
Defined.

Example get_user_events_default_limit :
  UserEventsHandler.get_user_events user_index int_of "u1" None start
  = (inr (UserEventsHandler.Response 200
            (UserEventsHandler.Events "u1" 2 [stored_click; click_with_metadata])),
     start)
  ∧ UserEventsHandler.get_user_events user_index int_of "u1"
      (Some {[ "limit" := "1" ]}) start
    = (inr (UserEventsHandler.Response 200
              (UserEventsHandler.Events "u1" 1 [stored_click])), start)
  ∧ UserEventsHandler.get_user_events user_index int_of "u1"
      (Some {[ "limit" := "ten" ]}) start
    = (inr (UserEventsHandler.Response 500
              (UserEventsHandler.Error
                 "invalid literal for int() with base 10: 'ten'")), start).
Proof. split_and!; vm_compute; reflexivity. Qed.
